(** * Statistics normalisation, parallel download, cloud-free mosaic and
      forest change of the CDSE notebooks

    The notebooks are straight-line Python that drives three libraries
    (pandas, sentinelhub, xarray) and ships one JavaScript evalscript.  The
    cells are embedded as functions over explicit values; each library call
    is embedded as a function of its own that follows what the library does
    on the values the cells hand to it.  Numbers (Python floats and ints, JS
    numbers) are kept abstract: a type [num] with the operations the code
    applies to it. *)

From Stdlib Require Import ZArith QArith Lia Bool Ascii String Sorted Permutation.
From Stdlib Require Import DecimalString DecimalPos DecimalZ.
From stdpp Require Import base list strings.

Set Warnings "-register-all".
Local Open Scope string_scope.
Local Open Scope list_scope.

(** ** Python values *)

(** The exceptions the modelled cells can raise. *)
Inductive exn :=
  | ValueError_NoObjectsToConcatenate
  | IndexError
  | KeyError (key : string)
  | AttributeError (attr : string)
  | DatetimeParseError
  | DownloadFailedException (position : nat).

Inductive result (A : Type) :=
  | Ok (a : A)
  | Raise (e : exn).
Arguments Ok {A} a.
Arguments Raise {A} e.

Definition bind {A B} (r : result A) (k : A -> result B) : result B :=
  match r with
  | Ok a => k a
  | Raise e => Raise e
  end.

Notation "'let*' x ':=' r 'in' k" := (bind r (fun x => k))
  (at level 10, x name, r at level 100, k at level 200).

(** [mapM f l]: a comprehension [[f(x) for x in l]] whose body may raise;
    the first element that raises ends it. *)
Fixpoint mapM {A B} (f : A -> result B) (l : list A) : result (list B) :=
  match l with
  | [] => Ok []
  | x :: l' => let* y := f x in let* ys := mapM f l' in Ok (y :: ys)
  end.

(** A Python [dict] with string keys: insertion ordered, one entry per key. *)
Fixpoint dict_set {V} (k : string) (v : V) (d : list (string * V)) : list (string * V) :=
  match d with
  | [] => [(k, v)]
  | (k', v') :: d' =>
      if String.eqb k' k then (k', v) :: d' else (k', v') :: dict_set k v d'
  end.

Fixpoint dict_get {V} (k : string) (d : list (string * V)) : option V :=
  match d with
  | [] => None
  | (k', v') :: d' => if String.eqb k' k then Some v' else dict_get k d'
  end.

(** [{**a, **b}] *)
Definition dict_merge {V} (a b : list (string * V)) : list (string * V) :=
  fold_left (fun acc kv => dict_set (fst kv) (snd kv) acc) b a.

(** [sub in s] on strings. *)
Fixpoint str_contains (sub s : string) : bool :=
  String.prefix sub s
  || match s with
     | EmptyString => false
     | String _ s' => str_contains sub s'
     end.

(** [s.removeprefix(p)] *)
Definition removeprefix (p s : string) : string :=
  if String.prefix p s
  then String.substring (String.length p) (String.length s - String.length p) s
  else s.

(** [s.split(sep)] for a one-character separator: never an empty list. *)
Fixpoint str_split (sep : ascii) (s : string) : list string :=
  match s with
  | EmptyString => [EmptyString]
  | String c s' =>
      if Ascii.eqb c sep then EmptyString :: str_split sep s'
      else match str_split sep s' with
           | [] => [String c EmptyString]
           | w :: ws => String c w :: ws
           end
  end.

(** [l[-1]]: IndexError on an empty list. *)
Definition getitem_last {A} (l : list A) : result A :=
  match List.rev l with
  | [] => Raise IndexError
  | x :: _ => Ok x
  end.

(** ** JSON payloads and data frames *)

Section Frames.
Context {num : Type}.

(** What [json.loads] builds: [None], [bool], numbers, [str], [list], [dict]. *)
Inductive json :=
  | JNull
  | JBool (b : bool)
  | JNum (x : num)
  | JStr (s : string)
  | JList (items : list json)
  | JDict (items : list (string * json)).

Definition is_dict (v : json) : bool :=
  match v with
  | JDict _ => true
  | _ => false
  end.

(** One time bucket of a response: a JSON object. *)
Definition record := list (string * json).

(** One Statistical API response, a dict of which the cell reads the
    ["data"] entry only: the list of the unit's time buckets. *)
Record response := { data : list record }.

(** A cell of a data frame: a missing value (NaN) or a Python object. *)
Inductive cell :=
  | NaN
  | Val (v : json).

(** A data frame with the default [RangeIndex]: column labels and rows, each
    row holding one cell per column. *)
Record DataFrame := { columns : list string; rows : list (list cell) }.

(** *** pandas.json_normalize *)

(** Modelled from the spec: pandas' [_normalise_json] (library code, not under
    src/), the recursive flattening of nested dicts behind "flatten the nested
    statistics payload": nested keys are joined with the separator ".". *)
Definition new_key (key_string key : string) : string :=
  let new_key := key_string +:+ "." +:+ key in
  if String.eqb key_string "" then removeprefix "." new_key else new_key.

Fixpoint normalise_json (data : json) (key_string : string)
    (normalized_dict : list (string * cell)) : list (string * cell) :=
  match data with
  | JDict items =>
      (fix items_loop (kvs : list (string * json)) (acc : list (string * cell)) :=
         match kvs with
         | [] => acc
         | (key, value) :: rest =>
             items_loop rest (normalise_json value (new_key key_string key) acc)
         end) items normalized_dict
  | _ => dict_set key_string (Val data) normalized_dict
  end.

(** pandas' [_normalise_json_ordered]: top-level scalars first, then the
    flattened nested dicts. *)
Definition normalise_json_ordered (data : record) : list (string * cell) :=
  let top_dict_ :=
    fold_left (fun acc kv => dict_set (fst kv) (Val (snd kv)) acc)
      (List.filter (fun kv => negb (is_dict (snd kv))) data) [] in
  let nested_dict_ :=
    normalise_json (JDict (List.filter (fun kv => is_dict (snd kv)) data)) "" [] in
  dict_merge top_dict_ nested_dict_.

(** Column labels of [DataFrame(list_of_dicts)]: the keys in order of first
    appearance. *)
Definition add_label (labels : list string) (k : string) : list string :=
  if existsb (String.eqb k) labels then labels else labels ++ [k].

Definition union_labels (labelss : list (list string)) : list string :=
  fold_left (fun acc labels => fold_left add_label labels acc) labelss [].

Definition DataFrame_of_dicts (ds : list (list (string * cell))) : DataFrame :=
  let cols := union_labels (map (map fst) ds) in
  {| columns := cols;
     rows := map (fun d => map (fun c => default NaN (dict_get c d)) cols) ds |}.

(** Modelled from the spec: [pd.json_normalize] on a list of records (library
    code, not under src/): one row per record, one column per flattened key, a
    missing key read as NaN; an empty list gives the empty frame. *)
Definition json_normalize (data : list record) : DataFrame :=
  match data with
  | [] => {| columns := []; rows := [] |}
  | _ => DataFrame_of_dicts (map normalise_json_ordered data)
  end.

(** *** DataFrame.__setitem__, pd.concat, pd.to_numeric, rename *)

(** Position of the first column labelled [c]. *)
Fixpoint label_index (c : string) (labels : list string) : option nat :=
  match labels with
  | [] => None
  | c' :: labels' =>
      if String.eqb c' c then Some 0 else option_map S (label_index c labels')
  end.

(** The cell of [row] under label [c]; NaN when the frame has no such column. *)
Definition cell_at (labels : list string) (row : list cell) (c : string) : cell :=
  match label_index c labels with
  | Some i => nth i row NaN
  | None => NaN
  end.

(** [zip]-like traversal of a row with the column labels. *)
Fixpoint map_labelled (f : string -> cell -> cell) (labels : list string)
    (row : list cell) : list cell :=
  match labels, row with
  | c :: labels', x :: row' => f c x :: map_labelled f labels' row'
  | _, _ => row
  end.

(** [df[key] = values] with one value per row, as the cell always supplies
    them: every column labelled [key] is overwritten; a new column is appended
    on the right when there is none. *)
Definition setitem_column (df : DataFrame) (key : string) (values : list cell) : DataFrame :=
  if existsb (String.eqb key) (columns df)
  then {| columns := columns df;
          rows := map (fun rv => map_labelled
                                   (fun c x => if String.eqb c key then snd rv else x)
                                   (columns df) (fst rv))
                      (combine (rows df) values) |}
  else {| columns := columns df ++ [key];
          rows := map (fun rv => fst rv ++ [snd rv]) (combine (rows df) values) |}.

(** [df[key] = scalar]: the scalar is broadcast to every row. *)
Definition setitem_scalar (df : DataFrame) (key : string) (v : cell) : DataFrame :=
  setitem_column df key (repeat v (length (rows df))).

(** A row re-indexed to new labels: NaN under the labels its frame lacks. *)
Definition reindex_row (labels new_labels : list string) (row : list cell) : list cell :=
  map (cell_at labels row) new_labels.

(** Modelled from the spec: [pd.concat(objs, ignore_index=True)] (library code,
    not under src/) on frames whose labels are pairwise distinct, "concatenate
    across units" with "no deduplication or sorting": the columns are the
    union of the labels in order of first appearance and the rows follow each
    other frame after frame, each re-indexed to the union ([sort=False],
    [join="outer"]).  The spec is silent on an empty list of frames; pandas
    refuses it with [ValueError: No objects to concatenate]. *)
Definition concat_frames (objs : list DataFrame) : result DataFrame :=
  match objs with
  | [] => Raise ValueError_NoObjectsToConcatenate
  | _ =>
      let cols := union_labels (map columns objs) in
      Ok {| columns := cols;
            rows := flat_map
                      (fun df => map (reindex_row (columns df) cols) (rows df)) objs |}
  end.

Variable parse_number : string -> option num.

(** Modelled from the spec: [pd.to_numeric(..., errors="coerce")] on one value
    (library code, not under src/): numbers and booleans are numeric already, a
    string becomes the number it spells, and whatever cannot be read as a
    number becomes NaN instead of raising. *)
Definition to_numeric_coerce (x : cell) : cell :=
  match x with
  | NaN => NaN
  | Val (JNum n) => Val (JNum n)
  | Val (JBool b) => Val (JBool b)
  | Val (JStr s) =>
      match parse_number s with
      | Some n => Val (JNum n)
      | None => NaN
      end
  | Val JNull => NaN
  | Val (JList _) => NaN
  | Val (JDict _) => NaN
  end.

(** [df[cols] = df[cols].apply(f)]: [f] is applied to the cells of the columns
    whose label is listed in [cols], all other cells are left alone. *)
Definition apply_columns (f : cell -> cell) (cols : list string) (df : DataFrame) : DataFrame :=
  {| columns := columns df;
     rows := map (map_labelled
                    (fun c x => if existsb (String.eqb c) cols then f x else x)
                    (columns df))
                 (rows df) |}.

(** [df.rename(columns=f)] for a label function that may raise. *)
Definition rename_columns (f : string -> result string) (df : DataFrame) : result DataFrame :=
  let* cols := mapM f (columns df) in
  Ok {| columns := cols; rows := rows df |}.

End Frames.

Arguments json : clear implicits.
Arguments cell : clear implicits.
Arguments record : clear implicits.
Arguments response : clear implicits.
Arguments DataFrame : clear implicits.

(** ** The normalisation cell of the air-pollution notebook *)

Section StatisticsCell.
Context {num : Type}.

(** [pd.to_numeric]'s reading of a string as a number. *)
Variable parse_number : string -> option num.

(** [.astype("datetime64[ns, UTC]").dt.month] on one value; [None] when the
    conversion raises. *)
Variable month_of : cell num -> option (cell num).

(** [no2_dfs = [pd.json_normalize(stats["data"]) for stats in pollution_stats]] *)
Definition normalize_each (pollution_stats : list (response num)) : list (DataFrame num) :=
  map (fun stats => json_normalize (data stats)) pollution_stats.

(** [for df, capital in zip(no2_dfs, selected_capitals.name): df["name"] = capital]:
    the frames of the list are updated in place; [zip] stops at the shorter
    of the two, the frames beyond it stay as they are. *)
Fixpoint add_names (no2_dfs : list (DataFrame num)) (names : list string)
    : list (DataFrame num) :=
  match no2_dfs, names with
  | df :: no2_dfs', capital :: names' =>
      setitem_scalar df "name" (Val (JStr capital)) :: add_names no2_dfs' names'
  | _, _ => no2_dfs
  end.

(** Lines 748 to 753: flatten, tag, concatenate. *)
Definition flatten_tag_concat (pollution_stats : list (response num))
    (names : list string) : result (DataFrame num) :=
  concat_frames (add_names (normalize_each pollution_stats) names).

(** [stat_cols = [col for col in no2_df.columns if 'stats' in col]] *)
Definition stat_columns (no2_df : DataFrame num) : list string :=
  List.filter (str_contains "stats") (columns no2_df).

(** [no2_df[stat_cols] = no2_df[stat_cols].apply(pd.to_numeric, errors="coerce")] *)
Definition coerce_stats (no2_df : DataFrame num) : DataFrame num :=
  apply_columns (to_numeric_coerce parse_number) (stat_columns no2_df) no2_df.

(** [lambda x: x.split(".")[-1]] *)
Definition last_segment (x : string) : result string :=
  getitem_last (str_split "." x).

(** [no2_df = no2_df.rename(columns=lambda x: x.split(".")[-1])] *)
Definition simplify_names (no2_df : DataFrame num) : result (DataFrame num) :=
  rename_columns last_segment no2_df.

(** The cells of [row] under the columns labelled [key], left to right. *)
Fixpoint cells_labelled (key : string) (labels : list string) (row : list (cell num))
    : list (cell num) :=
  match labels, row with
  | c :: labels', x :: row' =>
      if String.eqb c key then x :: cells_labelled key labels' row'
      else cells_labelled key labels' row'
  | _, _ => []
  end.

(** [no2_df["from"].astype("datetime64[ns, UTC]").dt.month]: a missing label is
    a KeyError; a value that is no timestamp makes [astype] raise; a label
    carried by several columns selects a frame, which has no [.dt]. *)
Definition month_series (no2_df : DataFrame num) : result (list (cell num)) :=
  match count_occ string_dec (columns no2_df) "from" with
  | O => Raise (KeyError "from")
  | n =>
      let* months :=
        mapM (mapM (fun x => match month_of x with
                             | Some m => Ok m
                             | None => Raise DatetimeParseError
                             end))
             (map (cells_labelled "from" (columns no2_df)) (rows no2_df)) in
      match n with
      | 1 => Ok (map (fun ms => nth 0 ms NaN) months)
      | _ => Raise (AttributeError "dt")
      end
  end.

(** [no2_df["month"] = ...] *)
Definition add_month (no2_df : DataFrame num) : result (DataFrame num) :=
  let* months := month_series no2_df in
  Ok (setitem_column no2_df "month" months).

(** Lines 748 to 759 as one function of the payload and the capitals' names:
    the table that is then written to the CSV file. *)
Definition normalization (pollution_stats : list (response num)) (names : list string)
    : result (DataFrame num) :=
  let* no2_df := flatten_tag_concat pollution_stats names in
  let* no2_df := simplify_names (coerce_stats no2_df) in
  add_month no2_df.

(** The kernel's namespace as far as the cell touches it: the two names it
    reads, the names it binds and reads back, and the file it writes (the loop
    variables [df] and [capital], which nothing reads after the loop, are
    left out). *)
Record namespace := {
  pollution_stats : list (response num);
  selected_capitals_name : list string;
  no2_dfs : option (list (DataFrame num));
  stat_cols : option (list string);
  no2_df : option (DataFrame num);
  no2_capitals_timeseries_csv : option (DataFrame num)
}.

Definition bind_no2_dfs (ns : namespace) (v : list (DataFrame num)) : namespace :=
  {| pollution_stats := pollution_stats ns;
     selected_capitals_name := selected_capitals_name ns;
     no2_dfs := Some v;
     stat_cols := stat_cols ns;
     no2_df := no2_df ns;
     no2_capitals_timeseries_csv := no2_capitals_timeseries_csv ns |}.

Definition bind_stat_cols (ns : namespace) (v : list string) : namespace :=
  {| pollution_stats := pollution_stats ns;
     selected_capitals_name := selected_capitals_name ns;
     no2_dfs := no2_dfs ns;
     stat_cols := Some v;
     no2_df := no2_df ns;
     no2_capitals_timeseries_csv := no2_capitals_timeseries_csv ns |}.

Definition bind_no2_df (ns : namespace) (v : DataFrame num) : namespace :=
  {| pollution_stats := pollution_stats ns;
     selected_capitals_name := selected_capitals_name ns;
     no2_dfs := no2_dfs ns;
     stat_cols := stat_cols ns;
     no2_df := Some v;
     no2_capitals_timeseries_csv := no2_capitals_timeseries_csv ns |}.

Definition to_csv (ns : namespace) (v : DataFrame num) : namespace :=
  {| pollution_stats := pollution_stats ns;
     selected_capitals_name := selected_capitals_name ns;
     no2_dfs := no2_dfs ns;
     stat_cols := stat_cols ns;
     no2_df := no2_df ns;
     no2_capitals_timeseries_csv := Some v |}.

(** Running the cell: the namespace it leaves behind, and the exception that
    stopped it, if any.  A statement that raises leaves the bindings made
    before it in place. *)
Definition run_cell (ns : namespace) : namespace * option exn :=
  let ns := bind_no2_dfs ns
              (add_names (normalize_each (pollution_stats ns))
                         (selected_capitals_name ns)) in
  match concat_frames (default [] (no2_dfs ns)) with
  | Raise e => (ns, Some e)
  | Ok df =>
      let ns := bind_no2_df ns df in
      let ns := bind_stat_cols ns (stat_columns df) in
      let df := apply_columns (to_numeric_coerce parse_number)
                              (default [] (stat_cols ns)) df in
      let ns := bind_no2_df ns df in
      match simplify_names df with
      | Raise e => (ns, Some e)
      | Ok df =>
          let ns := bind_no2_df ns df in
          match add_month df with
          | Raise e => (ns, Some e)
          | Ok df =>
              let ns := bind_no2_df ns df in
              (to_csv ns df, None)
          end
      end
  end.

End StatisticsCell.

Arguments namespace : clear implicits.

(** ** The parallel download call *)

Section ParallelFetch.
Context {request payload : Type}.

(** What the remote service answers to one request: the decoded payload, or
    [None] when that download fails. *)
Variable fetch : request -> option payload.

(** Modelled from the spec: [SentinelHubStatisticalDownloadClient.download]
    (sentinelhub client library, not under src/).  The requests are handed to
    a bounded pool of workers and finish in some order, [completed]; each
    result is stored at the position of its request in a list that starts out
    as [None] for every request; the first failure met while collecting
    raises out of the call and the list is not returned. *)
Fixpoint collect (requests : list request) (completed : list nat)
    (data_list : list (option payload)) : result (list (option payload)) :=
  match completed with
  | [] => Ok data_list
  | i :: completed' =>
      match requests !! i with
      | None => collect requests completed' data_list
      | Some rq =>
          match fetch rq with
          | None => Raise (DownloadFailedException i)
          | Some r => collect requests completed' (<[i := Some r]> data_list)
          end
      end
  end.

Definition download (requests : list request) (completed : list nat)
    : result (list (option payload)) :=
  collect requests completed (replicate (length requests) None).

End ParallelFetch.

(** ** The cloud-free mosaic evalscript *)

Section Evalscript.
Context {num : Type}.

(** JavaScript's number arithmetic: [+], [-], [*], [/], the literals, the
    test [v > 0] that [sort] applies to a comparator's result, and NaN, which
    [undefined] becomes inside arithmetic. *)
Variables (add sub mul div : num -> num -> num).
Variable of_Z : Z -> num.
Variable is_positive : num -> bool.
Variable nan : num.

Record sample := { B08 : num; B04 : num; B03 : num; B02 : num; SCL : Z }.

(** [(a,b) => a-b] *)
Definition compareFn (a b : num) : num := sub a b.

(** [values.sort(compareFn)]: an element goes after another when the
    comparator's result on the two is positive.  For a consistent comparator
    the language fixes the result, the stable ordered arrangement of the
    elements; it is computed here by insertion. *)
Fixpoint sort_insert (x : num) (sorted : list num) : list num :=
  match sorted with
  | [] => [x]
  | y :: sorted' =>
      if is_positive (compareFn x y) then y :: sort_insert x sorted'
      else x :: y :: sorted'
  end.

Fixpoint array_sort (values : list num) : list num :=
  match values with
  | [] => []
  | x :: values' => sort_insert x (array_sort values')
  end.

(** [sortedValues[index]] is [undefined] out of range. *)
Definition getFirstQuartile (sortedValues : list num) : option num :=
  let index := Nat.div (length sortedValues) 4 in
  nth_error sortedValues index.

Definition getFirstQuartileValue (values : list num) : option num :=
  getFirstQuartile (array_sort values).

Definition invalid : list Z := [0; 1; 3; 7; 8; 9; 10]%Z.

Definition validate (s : sample) : bool :=
  negb (existsb (Z.eqb (SCL s)) invalid).

(** An operand of arithmetic: [undefined] converts to NaN. *)
Definition to_number (v : option num) : num := default nan v.

Definition evaluatePixel (samples : list sample) : list num :=
  let valid := List.filter validate samples in
  if Nat.ltb 0 (length valid) then
    let b08 := getFirstQuartileValue (map B08 valid) in
    let b04 := getFirstQuartileValue (map B04 valid) in
    let b03 := getFirstQuartileValue (map B03 valid) in
    let b02 := getFirstQuartileValue (map B02 valid) in
    let ndvi := div (sub (to_number b08) (to_number b04))
                    (add (to_number b08) (to_number b04)) in
    map (fun v => mul v (of_Z 10000)) [to_number b04; to_number b03; to_number b02; ndvi]
  else [of_Z (-32768); of_Z (-32768); of_Z (-32768); of_Z (-32768)].

(** The comparator orders the given values consistently: of two values one
    is not after the other, and "not after" is transitive. *)
Definition not_after (a b : num) : Prop := is_positive (compareFn a b) = false.

Definition consistent_on (values : list num) : Prop :=
  (forall a b, In a values -> In b values -> not_after a b \/ not_after b a)
  /\ (forall a b c, In a values -> In b values -> In c values ->
        not_after a b -> not_after b c -> not_after a c).

End Evalscript.

(** ** Forest mask and year-over-year change *)

Section ForestChange.
Context {num : Type}.

(** [>] on array elements, and the threshold literal [0.7]. *)
Variable gt : num -> num -> bool.
Variable threshold : num.

(** A variable with dimensions (year, y, x) and its year coordinate. *)
Record DataArray (A : Type) := {
  year : list Z;
  values : list (list (list A))
}.
Arguments year {A} _.
Arguments values {A} _.

Definition map_elements {A B} (f : A -> B) (a : DataArray A) : DataArray B :=
  {| year := year a; values := map (map (map f)) (values a) |}.

(** [ds_s2["FOREST"] = ds_s2.NDVI > 0.7] *)
Definition FOREST (NDVI : DataArray num) : DataArray bool :=
  map_elements (fun v => gt v threshold) NDVI.

(** [.astype(int)] on a boolean array. *)
Definition astype_int (a : DataArray bool) : DataArray Z :=
  map_elements (fun b : bool => if b then 1%Z else 0%Z) a.

(** Element-wise difference of two (y, x) slices. *)
Definition slice_sub (later earlier : list (list Z)) : list (list Z) :=
  map (fun lines => map (fun ab => (fst ab - snd ab)%Z)
                        (combine (fst lines) (snd lines)))
      (combine later earlier).

(** [.diff("year", label="upper")]: each slice minus the slice before it,
    labelled with the later year. *)
Definition diff_year (a : DataArray Z) : DataArray Z :=
  {| year := tail (year a);
     values := map (fun slices => slice_sub (fst slices) (snd slices))
                   (combine (tail (values a)) (values a)) |}.

(** The right-hand side of the assignment to [ds_s2["CHANGE"]]. *)
Definition CHANGE_diff (NDVI : DataArray num) : DataArray Z :=
  diff_year (astype_int (FOREST NDVI)).

(** The slice of [a] labelled [y]. *)
Fixpoint sel_year {A} (y : Z) (years : list Z) (slices : list (list (list A)))
    : option (list (list A)) :=
  match years, slices with
  | y' :: years', s :: slices' =>
      if Z.eqb y' y then Some s else sel_year y years' slices'
  | _, _ => None
  end.

(** [ds_s2["CHANGE"] = ...]: the new variable is aligned with the year
    coordinate of the dataset; a year it has no slice for is filled with
    missing values ([None]). *)
Definition CHANGE (NDVI : DataArray num) : DataArray (option Z) :=
  let d := CHANGE_diff NDVI in
  {| year := year NDVI;
     values := map (fun ys =>
                      match sel_year (fst ys) (year d) (values d) with
                      | Some s => map (map Some) s
                      | None => map (map (fun _ => None)) (snd ys)
                      end)
                   (combine (year NDVI) (values NDVI)) |}.

End ForestChange.

Arguments year {A} _.
Arguments values {A} _.

(** * More of the notebooks *)

(** ** What the cloud-free mosaic evalscript declares *)

Inductive sample_type := INT16 | FLOAT32.

Inductive mosaicking_kind := SIMPLE | ORBIT.

(** The object returned by an evalscript's [setup()]. *)
Record setup_description := {
  input_bands : list string;
  output_bands : nat;
  output_sample_type : sample_type;
  mosaicking : mosaicking_kind
}.

(** [setup()] of [evalscript_cloudless]. *)
Definition setup : setup_description :=
  {| input_bands := ["B08"; "B04"; "B03"; "B02"; "SCL"];
     output_bands := 4;
     output_sample_type := INT16;
     mosaicking := ORBIT |}.

(** ** The mean mosaic evalscript of the air-pollution notebook *)

Module MeanMosaic.

Definition setup : setup_description :=
  {| input_bands := ["NO2"; "dataMask"];
     output_bands := 1;
     output_sample_type := FLOAT32;
     mosaicking := ORBIT |}.

Section Script.
Context {num : Type}.

(** JavaScript's [+] and [/] and the number literals. *)
Variables (add div : num -> num -> num).
Variable of_Z : Z -> num.

Record sample := { NO2 : num; dataMask : Z }.

(** [sample.dataMask == 1] *)
Definition isClear (s : sample) : bool := Z.eqb (dataMask s) 1.

(** [let sum = 0; for (...) { sum += array[i].NO2 }; return sum] *)
Definition sum (array : list sample) : num :=
  fold_left (fun sum s => add sum (NO2 s)) array (of_Z 0).

Definition evaluatePixel (samples : list sample) : list num :=
  let clearTs := List.filter isClear samples in
  let mean := div (sum clearTs) (of_Z (Z.of_nat (length clearTs))) in
  [mean].

End Script.

End MeanMosaic.

(** ** Forest area, forest loss and the year of loss *)

Section ForestAccounts.
Context {num : Type}.
Variable gt : num -> num -> bool.
Variable threshold : num.

(** [.sum(["x", "y"])] of a boolean variable: for each year the number of
    [True] pixels of its slice, row by row. *)
Definition sum_xy (a : DataArray bool) : list Z :=
  map (fun slice =>
         fold_right Z.add 0%Z
           (map (fun row => fold_right Z.add 0%Z
                              (map (fun b : bool => if b then 1%Z else 0%Z) row))
                slice))
      (values a).

(** [forest_pixels = ds_s2.FOREST.sum(["x", "y"])] *)
Definition forest_pixels (NDVI : DataArray num) : list Z :=
  sum_xy (FOREST gt threshold NDVI).

(** [ds_s2.CHANGE == -1] on one value: a missing value equals nothing. *)
Definition is_loss (c : option Z) : bool :=
  match c with
  | Some v => Z.eqb v (-1)
  | None => false
  end.

(** [forest_loss = (ds_s2.CHANGE == -1).sum(["x", "y"])] *)
Definition forest_loss (NDVI : DataArray num) : list Z :=
  sum_xy (map_elements is_loss (CHANGE gt threshold NDVI)).

(** [lost_year = (ds_s2.CHANGE == -1) * ds_s2.year % 100]: the year coordinate
    is broadcast over the slice of its year; [*] and [%] are applied from
    left to right. *)
Definition lost_year (NDVI : DataArray num) : DataArray Z :=
  let c := CHANGE gt threshold NDVI in
  {| year := year c;
     values := map (fun ys =>
                      map (map (fun v => (((if is_loss v then 1 else 0) * fst ys)
                                          mod 100)%Z))
                          (snd ys))
                   (combine (year NDVI) (values c)) |}.

(** The values of pixel (i, j) in a list of (y, x) slices. *)
Definition along_axis0 {A} (slices : list (list (list A))) (i j : nat) : list A :=
  omap (fun slice : list (list A) => slice !! i ≫= fun row => row !! j) slices.

(** [argmax] over booleans, scanning from position [i] on with the best value
    and its position so far: a later value wins only if it is larger. *)
Fixpoint argmax_scan (best : bool) (best_i i : nat) (l : list bool) : nat :=
  match l with
  | [] => best_i
  | b :: l' =>
      if negb best && b then argmax_scan b i (S i) l'
      else argmax_scan best best_i (S i) l'
  end.

(** [.argmax(axis=0)] of a boolean (year, y, x) array: for each pixel the
    position of the first maximum along the years; [None] for the ValueError
    raised on an empty year axis. *)
Definition argmax_axis0 (a : list (list (list bool))) : option (list (list nat)) :=
  match a with
  | [] => None
  | first :: later =>
      Some (imap (fun i row =>
                    imap (fun j b => argmax_scan b 0 1 (along_axis0 later i j)) row)
                 first)
  end.

(** [first_nonzero = (lost_year != 0).argmax(axis=0).compute()] *)
Definition first_nonzero (NDVI : DataArray num) : option (list (list nat)) :=
  argmax_axis0 (map (map (map (fun v => negb (Z.eqb v 0)))) (values (lost_year NDVI))).

(** All the values of a list of lookups, [None] if one of them failed. *)
Fixpoint all_found {A} (l : list (option A)) : option (list A) :=
  match l with
  | [] => Some []
  | x :: l' =>
      match x, all_found l' with
      | Some a, Some l'' => Some (a :: l'')
      | _, _ => None
      end
  end.

(** [a[idx]] for a (y, x) array [idx] of positions along the years: pixel
    (i, j) of the result is pixel (i, j) of the slice number [idx[i, j]];
    [None] for the IndexError raised by a position out of bounds. *)
Definition isel_year {A} (a : list (list (list A))) (idx : list (list nat))
    : option (list (list A)) :=
  all_found
    (imap (fun i row =>
             all_found
               (imap (fun j t => a !! t ≫= fun slice =>
                                 slice !! i ≫= fun line => line !! j) row))
          idx).

(** [ds_s2["LOST_YEAR"] = lost_year[first_nonzero]] *)
Definition LOST_YEAR (NDVI : DataArray num) : option (list (list Z)) :=
  first_nonzero NDVI ≫= isel_year (values (lost_year NDVI)).

(** [ds_s2.LOST_YEAR > 18], the mask handed to [accuracy_score]. *)
Definition LOST_YEAR_mask (NDVI : DataArray num) : option (list (list bool)) :=
  map (map (fun v => Z.ltb 18 v)) <$> LOST_YEAR NDVI.

End ForestAccounts.

(** ** Files named after their year *)

(** Strings stand for sequences of code points below 256. *)

(** The default limit on the number of digits that [str] and [int] convert. *)
Definition int_max_str_digits : nat := 4300.

(** [str(n)] for an [int]: its decimal digits, with ["-"] in front of a
    negative number; [None] for the ValueError raised beyond the limit on the
    number of digits. *)
Definition str_of_int (n : Z) : option string :=
  let s := NilZero.string_of_int (Z.to_int n) in
  let digits := if (n <? 0)%Z then String.length s - 1 else String.length s in
  if (digits <=? int_max_str_digits)%nat then Some s else None.

(** [f"./data/{year}.tif"], the name that the loop over [sh_requests.items()]
    gives to the download of [year]. *)
Definition year_file (year : Z) : option string :=
  (fun s => "./data/" +:+ s +:+ ".tif") <$> str_of_int year.

(** The characters that [int] skips around a number. *)
Definition isspace (c : ascii) : bool :=
  let n := nat_of_ascii c in
  ((9 <=? n) && (n <=? 13) || (n =? 32) || (n =? 133) || (n =? 160))%nat.

Fixpoint lstrip (s : string) : string :=
  match s with
  | EmptyString => EmptyString
  | String c s' => if isspace c then lstrip s' else s
  end.

Fixpoint rstrip (s : string) : string :=
  match s with
  | EmptyString => EmptyString
  | String c s' =>
      match rstrip s' with
      | EmptyString => if isspace c then EmptyString else String c EmptyString
      | r => String c r
      end
  end.

Definition digit_value (c : ascii) : option Z :=
  let n := nat_of_ascii c in
  if ((48 <=? n) && (n <=? 57))%nat then Some (Z.of_nat (n - 48)) else None.

(** Digits, with single underscores between digits only: the number they
    spell and how many digits there are. *)
Fixpoint parse_digits (acc : Z) (count : nat) (after_digit : bool) (s : string)
    : option (Z * nat) :=
  match s with
  | EmptyString => if after_digit then Some (acc, count) else None
  | String c s' =>
      match digit_value c with
      | Some d => parse_digits (10 * acc + d) (S count) true s'
      | None =>
          if Ascii.eqb c "_" && after_digit then parse_digits acc count false s'
          else None
      end
  end.

(** [int(s)] for a string: surrounding whitespace is skipped, a sign may come
    first, the rest is digits; [None] for a ValueError. *)
Definition int_of_str (s : string) : option Z :=
  let s := rstrip (lstrip s) in
  let signed :=
    match s with
    | String c s' =>
        if Ascii.eqb c "-" then (true, s')
        else if Ascii.eqb c "+" then (false, s')
        else (false, s)
    | EmptyString => (false, s)
    end in
  match parse_digits 0 0 false (snd signed) with
  | Some (v, count) =>
      if (count <=? int_max_str_digits)%nat
      then Some (if fst signed then (- v)%Z else v)
      else None
  | None => None
  end.

(** [PurePosixPath(s).name]: the last component that is neither empty nor
    ["."], the empty string when there is none. *)
Definition path_name (s : string) : string :=
  List.last
    (List.filter (fun part => negb (String.eqb part "") && negb (String.eqb part "."))
                 (str_split "/" s))
    "".

(** [s.rfind(c)], [None] for -1. *)
Fixpoint rfind (c : ascii) (s : string) : option nat :=
  match s with
  | EmptyString => None
  | String c' s' =>
      match rfind c s' with
      | Some i => Some (S i)
      | None => if Ascii.eqb c' c then Some 0 else None
      end
  end.

(** [PurePosixPath(s).stem], as pathlib defines it up to Python 3.13: the
    name up to its last dot, unless that dot is its first or last character. *)
Definition path_stem (s : string) : string :=
  let name := path_name s in
  match rfind "." name with
  | Some i =>
      if ((0 <? i) && (i <? String.length name - 1))%nat
      then String.substring 0 i name
      else name
  | None => name
  end.

(** [add_time_dim]: the raster opened from [source] gets a year axis of
    length one, the year being read off the name of the file. *)
Definition add_time_dim {A} (source : string) (xda : list (list A))
    : option (DataArray A) :=
  (fun year => {| year := [year]; values := [xda] |})
    <$> int_of_str (path_stem source).

(** ** The requests of the air-pollution notebook *)

Section StatisticsRequests.
Context {shape request : Type}.

(** A row of the [capitals] table: the columns the cells read. *)
Record capital_row := { name : string; geometry : shape }.

(** [.to_crs(3857).buffer(2000)] on one geometry. *)
Variable buffer : shape -> shape.

(** [SentinelHubStatistical(aggregation=aggregation, input_data=[input_data],
    config=config, bbox=BBox(geo_shape.bounds, crs=selected_capitals.crs))
    .download_list[0]]: the request is a function of the geometry, everything
    else being the same for all capitals. *)
Variable statistical_request : shape -> request.

(** [capitals.geometry = capitals.to_crs(3857).buffer(2000)] *)
Definition buffer_capitals (capitals : list capital_row) : list capital_row :=
  map (fun c => {| name := name c; geometry := buffer (geometry c) |}) capitals.

(** [selected_capitals = capitals.loc[capitals["name"].isin(to_get)]] *)
Definition selected_capitals (capitals : list capital_row) (to_get : list string)
    : list capital_row :=
  List.filter (fun c => existsb (String.eqb (name c)) to_get) (buffer_capitals capitals).

(** The loop over [selected_capitals.geometry.values] and
    [download_requests = [request.download_list[0] for request in requests]]. *)
Definition download_requests (capitals : list capital_row) (to_get : list string)
    : list request :=
  map (fun c => statistical_request (geometry c)) (selected_capitals capitals to_get).

End StatisticsRequests.

Arguments capital_row : clear implicits.

(** * Vocabulary of the properties *)

(** ** Labels *)

Definition dotless (s : string) : Prop := str_contains "." s = false.

(** [seg] is the final dot-separated segment of [x]. *)
Definition final_segment_of (x seg : string) : Prop :=
  dotless seg /\ (x = seg \/ exists p, x = p +:+ "." +:+ seg).

(** ** Rows of the table *)

Section TableVocabulary.
Context {num : Type}.

(** [generated df g xs]: the frame has one row per element of [xs], the row of
    [x] holds [g x c] under each label [c], and [g] is NaN off the labels. *)
Definition generated {X} (df : DataFrame num) (g : X -> string -> cell num) (xs : list X) : Prop :=
  rows df = map (fun x => map (g x) (columns df)) xs
  /\ forall x c, In x xs -> ~ In c (columns df) -> g x c = NaN.

(** Every row has one cell per column. *)
Definition well_formed (df : DataFrame num) : Prop :=
  Forall (fun row => length row = length (columns df)) (rows df).

(** The cell of a flattened record under a label. *)
Definition flat_record (r : record num) (c : string) : cell num :=
  default NaN (dict_get c (normalise_json_ordered r)).

End TableVocabulary.

Section ExpectedTable.
Context {num : Type}.
Variable parse_number : string -> option num.
Variable month_of : cell num -> option (cell num).

(** The cell of a record of a unit under a label: the unit's name under
    ["name"] when the unit was given one, else the flattened record's value. *)
Definition record_cell (tag : option string) (r : record num) (c : string) : cell num :=
  match tag with
  | Some capital => if String.eqb c "name" then Val (JStr capital) else flat_record r c
  | None => flat_record r c
  end.

(** The rows of one unit: one per record of its response, in the response's
    order. *)
Definition unit_rows (cols : list string) (tag : option string) (stats : response num)
    : list (list (cell num)) :=
  map (fun r => map (record_cell tag r) cols) (data stats).

(** The rows of all units: the first unit's rows, then the second's, and so
    on; the i-th unit is paired with the i-th name. *)
Fixpoint expected_rows (cols : list string) (pollution_stats : list (response num))
    (names : list string) : list (list (cell num)) :=
  match pollution_stats with
  | [] => []
  | stats :: pollution_stats' =>
      unit_rows cols (head names) stats
      ++ expected_rows cols pollution_stats' (tail names)
  end.

(** The number of time buckets over all units. *)
Definition bucket_count (pollution_stats : list (response num)) : nat :=
  list_sum (map (fun stats => length (data stats)) pollution_stats).

(** A value that [pd.to_numeric] reads as a number. *)
Definition parses_as_number (x : cell num) : bool :=
  match x with
  | Val (JNum _) => true
  | Val (JBool _) => true
  | Val (JStr s) => match parse_number s with Some _ => true | None => false end
  | _ => false
  end.

(** The label a column carries after the renaming. *)
Definition segment (x : string) : string :=
  match last_segment x with
  | Ok seg => seg
  | Raise _ => x
  end.

(** The month written into a row, read off its own ["from"] cell. *)
Definition month_value (labels : list string) (row : list (cell num)) : cell num :=
  match mapM (fun x => match month_of x with
                       | Some m => Ok m
                       | None => Raise DatetimeParseError
                       end)
             (cells_labelled "from" labels row) with
  | Ok months => nth 0 months NaN
  | Raise _ => NaN
  end.

(** The row of the final table made from a row of the concatenated table
    whose labels are [labels]: statistics coerced, month set. *)
Definition final_row (labels : list string) (row : list (cell num)) : list (cell num) :=
  let stat_cols := List.filter (str_contains "stats") labels in
  let coerced :=
    map_labelled (fun c x => if existsb (String.eqb c) stat_cols
                             then to_numeric_coerce parse_number x else x)
                 labels row in
  let renamed := map segment labels in
  let month := month_value renamed coerced in
  if existsb (String.eqb "month") renamed
  then map_labelled (fun c x => if String.eqb c "month" then month else x) renamed coerced
  else coerced ++ [month].

(** The labels of the final table, given those of the concatenated table. *)
Definition final_labels (labels : list string) : list string :=
  let renamed := map segment labels in
  if existsb (String.eqb "month") renamed then renamed else renamed ++ ["month"].

(** [block] holds the rows of the final table for the unit [sn]: one row per
    record of the unit's response, each holding the unit's name in column
    number [j]. *)
Definition final_unit_block (j : nat) (sn : response num * string)
    (block : list (list (cell num))) : Prop :=
  length block = length (data (fst sn))
  /\ Forall (fun row => nth_error row j = Some (Val (JStr (snd sn)))) block.

(** [block] holds the rows of the unit [sn]: one row per record of the unit's
    response, each reading the unit's name under ["name"]. *)
Definition unit_block (T : DataFrame num) (sn : response num * string)
    (block : list (list (cell num))) : Prop :=
  block = unit_rows (columns T) (Some (snd sn)) (fst sn)
  /\ Forall (fun row => cell_at (columns T) row "name" = Val (JStr (snd sn))) block.

End ExpectedTable.

(** ** Quartiles *)

Section QuartileVocabulary.
Context {num : Type}.
Variable sub : num -> num -> num.
Variable is_positive : num -> bool.

(** [q] is the element at index floor(n/4) of an ascending arrangement of
    the n values. *)
Definition first_quartile_of (values : list num) (q : num) : Prop :=
  exists sorted,
    Permutation values sorted
    /\ StronglySorted (not_after sub is_positive) sorted
    /\ nth_error sorted (Nat.div (length values) 4) = Some q.

End QuartileVocabulary.

(** ** Forest change *)

(** The change of one pixel between a year and the next: forest lost (-1),
    no change (0), forest gained (1). *)
Definition forest_change (later earlier : bool) : Z :=
  match earlier, later with
  | true, false => (-1)%Z
  | false, true => 1%Z
  | _, _ => 0%Z
  end.

(** Each pair of consecutive slices of the mask, compared pixel by pixel. *)
Definition consecutive_changes (mask : list (list (list bool))) : list (list (list Z)) :=
  zip_with (zip_with (zip_with forest_change)) (tail mask) mask.

Definition change_value (c : Z) : Prop := c = (-1)%Z \/ c = 0%Z \/ c = 1%Z.


(** ** Order of the band values *)

Section OrderVocabulary.
Context {num : Type}.
Variable sub : num -> num -> num.
Variable is_positive : num -> bool.

(** Two of the values that the comparator does not tell apart are the same
    value. *)
Definition antisymmetric_on (values : list num) : Prop :=
  forall a b, In a values -> In b values ->
              not_after sub is_positive a b -> not_after sub is_positive b a -> a = b.

(** [q] stands at rank floor(n/4) among the n values: [lower] holds the
    floor(n/4) values placed before it, none of them after [q], and [upper]
    the others, [q] being after none of them. *)
Definition quartile_split (values : list num) (q : num) (lower upper : list num) : Prop :=
  Permutation values (lower ++ q :: upper)
  /\ length lower = Nat.div (length values) 4
  /\ Forall (fun v => not_after sub is_positive v q) lower
  /\ Forall (not_after sub is_positive q) upper.

End OrderVocabulary.

(** ** Forest accounts *)

(** One slice per year, no year twice, and every slice a raster of [h] rows
    of [w] pixels. *)
Definition well_shaped {A} (a : DataArray A) (h w : nat) : Prop :=
  NoDup (year a)
  /\ length (year a) = length (values a)
  /\ Forall (fun slice => length slice = h /\ Forall (fun row => length row = w) slice)
            (values a).

(** [ds_s2.CHANGE == 1] on one value. *)
Definition is_gain (c : option Z) : bool :=
  match c with
  | Some v => Z.eqb v 1
  | None => false
  end.

(** The number of pixels that became forest, year by year. *)
Definition forest_gain {num} (gt : num -> num -> bool) (threshold : num)
    (NDVI : DataArray num) : list Z :=
  sum_xy (map_elements is_gain (CHANGE gt threshold NDVI)).

(** The position of the first year in which a pixel that was forest the year
    before is forest no more, [prev] being the mask of the year before
    position [t]. *)
Fixpoint first_loss_from (prev : bool) (t : nat) (mask : list bool) : option nat :=
  match mask with
  | [] => None
  | b :: mask' =>
      if prev && negb b then Some t else first_loss_from b (S t) mask'
  end.

Definition first_loss (mask : list bool) : option nat :=
  match mask with
  | [] => None
  | b :: mask' => first_loss_from b 1 mask'
  end.

(** ** Characters of a file name *)

(** Every character of the string satisfies [p]. *)
Fixpoint every_char (p : ascii -> bool) (s : string) : bool :=
  match s with
  | EmptyString => true
  | String c s' => p c && every_char p s'
  end.

(** A decimal digit. *)
Definition is_digit (c : ascii) : bool :=
  match digit_value c with
  | Some _ => true
  | None => false
  end.

(** * Concrete data *)

(** One time bucket the way the Statistical API answers: an interval and the
    statistics of the NO2 band, a statistic without data spelled ["NaN"]. *)
Definition example_bucket (from to mean : string) (count : Z) : record Z :=
  [("interval", JDict [("from", JStr from); ("to", JStr to)]);
   ("outputs",
    JDict [("default",
            JDict [("bands",
                    JDict [("NO2",
                            JDict [("stats",
                                    JDict [("mean", JStr mean);
                                           ("sampleCount", JNum count)])])])])])].

Definition example_stats : list (response Z) :=
  [ {| data := [example_bucket "2022-01-01T00:00:00Z" "2022-01-03T00:00:00Z" "NaN" 0;
                example_bucket "2022-01-03T00:00:00Z" "2022-01-05T00:00:00Z" "7" 1] |};
    {| data := [example_bucket "2022-01-01T00:00:00Z" "2022-01-03T00:00:00Z" "7" 1] |} ].

Definition example_names : list string := ["Amsterdam"; "Berlin"].

Definition example_parse (s : string) : option Z :=
  if String.eqb s "7" then Some 7%Z else None.

Definition example_month (x : cell Z) : option (cell Z) :=
  match x with
  | Val (JStr _) => Some (Val (JNum 1%Z))
  | NaN => Some NaN
  | Val JNull => Some NaN
  | _ => None
  end.

(** Requests named after their capital; the service answers with a number. *)
Definition example_requests : list string := ["Amsterdam"; "Brussels"; "Tallinn"].

Definition example_fetch (rq : string) : option nat := Some (String.length rq).

Definition example_fetch_failing (rq : string) : option nat :=
  if String.eqb rq "Brussels" then None else Some (String.length rq).

(** Rational numbers as the evalscript's numbers. *)
Definition Q_is_positive (q : Q) : bool := (0 <? Qnum q)%Z.

Definition example_samples : list (sample (num:=Q)) :=
  [ {| B08 := 0.40%Q; B04 := 0.05%Q; B03 := 0.07%Q; B02 := 0.04%Q; SCL := 4 |};
    {| B08 := 0.90%Q; B04 := 0.80%Q; B03 := 0.85%Q; B02 := 0.90%Q; SCL := 9 |};
    {| B08 := 0.35%Q; B04 := 0.06%Q; B03 := 0.08%Q; B02 := 0.05%Q; SCL := 4 |};
    {| B08 := 0.30%Q; B04 := 0.10%Q; B03 := 0.09%Q; B02 := 0.06%Q; SCL := 5 |};
    {| B08 := 0.45%Q; B04 := 0.04%Q; B03 := 0.06%Q; B02 := 0.03%Q; SCL := 4 |};
    {| B08 := 0.50%Q; B04 := 0.07%Q; B03 := 0.10%Q; B02 := 0.07%Q; SCL := 6 |};
    {| B08 := 0.00%Q; B04 := 0.00%Q; B03 := 0.00%Q; B02 := 0.00%Q; SCL := 0 |} ].

(** Three years of NDVI over a 1 x 3 raster. *)
Definition Q_gt (a b : Q) : bool := negb (Qle_bool a b).

Definition example_NDVI : DataArray Q :=
  {| year := [2018; 2019; 2020]%Z;
     values := [ [[0.8; 0.8; 0.2]]; [[0.8; 0.3; 0.2]]; [[0.1; 0.9; 0.2]] ]%Q |}.

(** Three capitals with numbered geometries; buffering adds 2000 to the
    number and the request of a geometry is its number; the service knows
    the buffered Amsterdam and the buffered Berlin. *)
Definition example_capitals : list (capital_row Z) :=
  [ {| name := "Amsterdam"; geometry := 1%Z |};
    {| name := "Paris"; geometry := 2%Z |};
    {| name := "Berlin"; geometry := 3%Z |} ].

Definition example_buffer (g : Z) : Z := (g + 2000)%Z.

Definition example_service (rq : Z) : option (response Z) :=
  if Z.eqb rq 2001 then nth_error example_stats 0
  else if Z.eqb rq 2003 then nth_error example_stats 1
  else None.

(** * Properties *)

(** ** Strings *)


Lemma prefix_empty (s : string) : String.prefix "" s = true.
Proof. destruct s; reflexivity. Qed.

Lemma dotless_cons c s :
  dotless (String c s) <-> c <> "."%char /\ dotless s.
Proof.
  unfold dotless. cbn [str_contains String.prefix].
  destruct (Ascii.ascii_dec "." c) as [<-|Hne]; rewrite ?prefix_empty; cbn.
  - split; [discriminate | intros [H _]; congruence].
  - split; [intros H; split; [congruence | exact H] | intros [_ H]; exact H].
Qed.

Lemma eqb_dot_false c : c <> "."%char -> Ascii.eqb c "." = false.
Proof. intros H. apply Ascii.eqb_neq. exact H. Qed.

Lemma getitem_last_snoc {A} (init : list A) (x : A) :
  getitem_last (init ++ [x]) = Ok x.
Proof. unfold getitem_last. rewrite rev_unit. reflexivity. Qed.

(** [split] cuts at every dot: the last piece has no dot, and it is the whole
    string or what follows the last dot. *)
Lemma str_split_dot_last (s : string) :
  exists init seg,
    str_split "." s = init ++ [seg] /\ dotless seg /\
    ((init = [] /\ s = seg) \/ (init <> [] /\ exists p, s = p +:+ "." +:+ seg)).
Proof.
  induction s as [|c s IH].
  - exists [], "". repeat split; auto.
  - destruct IH as (init & seg & Hs & Hd & Hcase). cbn [str_split].
    destruct (Ascii.eqb c ".") eqn:Hc.
    + apply Ascii.eqb_eq in Hc. subst c.
      exists ("" :: init), seg. rewrite Hs. repeat split; auto.
      right. split; [discriminate|].
      destruct Hcase as [[_ ->] | [_ [p ->]]].
      * exists "". reflexivity.
      * exists (String "." p). reflexivity.
    + apply Ascii.eqb_neq in Hc. rewrite Hs.
      destruct init as [|w ws]; cbn.
      * destruct Hcase as [[_ ->] | [Hne _]]; [|congruence].
        exists [], (String c seg). repeat split; auto.
        apply dotless_cons. auto.
      * destruct Hcase as [[Hnil _] | [_ [p ->]]]; [discriminate|].
        exists (String c w :: ws), seg. repeat split; auto.
        right. split; [discriminate|]. exists (String c p). reflexivity.
Qed.

Lemma str_split_dotless (s : string) : dotless s -> str_split "." s = [s].
Proof.
  induction s as [|c s IH]; intros Hd; [reflexivity|].
  apply dotless_cons in Hd as [Hc Hd]. cbn [str_split].
  rewrite (eqb_dot_false _ Hc), (IH Hd). reflexivity.
Qed.

Lemma last_segment_final (x : string) :
  exists seg, last_segment x = Ok seg /\ final_segment_of x seg.
Proof.
  destruct (str_split_dot_last x) as (init & seg & Hs & Hd & Hcase).
  exists seg. unfold last_segment, final_segment_of.
  rewrite Hs, getitem_last_snoc. repeat split; auto.
  destruct Hcase as [[_ ->] | [_ Hp]]; auto.
Qed.

Lemma mapM_last_segment (labels : list string) :
  exists labels', mapM last_segment labels = Ok labels'
                  /\ Forall2 final_segment_of labels labels'.
Proof.
  induction labels as [|x labels IH].
  - exists []. split; [reflexivity | constructor].
  - destruct IH as (labels' & HM & HF).
    destruct (last_segment_final x) as (seg & Hseg & Hfin).
    exists (seg :: labels'). cbn [mapM]. rewrite Hseg, HM. cbn.
    split; [reflexivity | constructor; assumption].
Qed.

(** ** Labels and dicts *)

Lemma existsb_eqb_In (k : string) (labels : list string) :
  existsb (String.eqb k) labels = true <-> In k labels.
Proof.
  rewrite existsb_exists. split.
  - intros (x & Hin & Heq). apply String.eqb_eq in Heq. subst. exact Hin.
  - intros Hin. exists k. split; [exact Hin | apply String.eqb_refl].
Qed.

Lemma existsb_eqb_not_In (k : string) (labels : list string) :
  existsb (String.eqb k) labels = false <-> ~ In k labels.
Proof.
  rewrite <- existsb_eqb_In. destruct (existsb _ _); split; intros H; congruence.
Qed.

Lemma In_add_label (k k' : string) (labels : list string) :
  In k' (add_label labels k) <-> In k' labels \/ k' = k.
Proof.
  unfold add_label. destruct (existsb (String.eqb k) labels) eqn:E.
  - apply existsb_eqb_In in E. split; [auto | intros [H | ->]; assumption].
  - rewrite in_app_iff. cbn. intuition congruence.
Qed.

Lemma In_fold_add_label (k : string) (labels acc : list string) :
  In k (fold_left add_label labels acc) <-> In k acc \/ In k labels.
Proof.
  revert acc. induction labels as [|l labels IH]; intros acc; cbn.
  - tauto.
  - rewrite IH, In_add_label. intuition congruence.
Qed.

Lemma In_fold_union (k : string) (labelss : list (list string)) (acc : list string) :
  In k (fold_left (fun acc labels => fold_left add_label labels acc) labelss acc)
  <-> In k acc \/ exists labels, In labels labelss /\ In k labels.
Proof.
  revert acc. induction labelss as [|l labelss IH]; intros acc; cbn.
  - split; [auto | intros [H | (x & [] & _)]; exact H].
  - rewrite IH, In_fold_add_label. split.
    + intros [[H | H] | (x & Hx & Hk)]; eauto.
    + intros [H | (x & [<- | Hx] & Hk)]; eauto.
Qed.

Lemma In_union_labels (k : string) (labelss : list (list string)) :
  In k (union_labels labelss) <-> exists labels, In labels labelss /\ In k labels.
Proof.
  unfold union_labels. rewrite In_fold_union. cbn. tauto.
Qed.

Lemma NoDup_add_label (k : string) (labels : list string) :
  List.NoDup labels -> List.NoDup (add_label labels k).
Proof.
  intros Hnd. unfold add_label. destruct (existsb (String.eqb k) labels) eqn:E; [exact Hnd|].
  apply existsb_eqb_not_In in E.
  apply List.NoDup_app; [exact Hnd | repeat constructor; intros [] | ].
  intros x Hx [<- | []]. contradiction.
Qed.

Lemma NoDup_union_labels (labelss : list (list string)) :
  List.NoDup (union_labels labelss).
Proof.
  unfold union_labels.
  assert (H : forall acc, List.NoDup acc ->
                List.NoDup (fold_left (fun acc labels => fold_left add_label labels acc)
                                      labelss acc)).
  { induction labelss as [|labels labelss IH]; intros acc Hacc; cbn; [exact Hacc|].
    apply IH. clear IH. revert acc Hacc.
    induction labels as [|k labels IH]; intros acc Hacc; cbn; [exact Hacc|].
    apply IH. apply NoDup_add_label. exact Hacc. }
  apply H. constructor.
Qed.

Lemma dict_get_Some_In {V} (k : string) (d : list (string * V)) (v : V) :
  dict_get k d = Some v -> In k (map fst d).
Proof.
  induction d as [|[k' v'] d IH]; cbn; [discriminate|].
  destruct (String.eqb k' k) eqn:E.
  - apply String.eqb_eq in E. auto.
  - auto.
Qed.

Lemma label_index_None (c : string) (labels : list string) :
  label_index c labels = None -> ~ In c labels.
Proof.
  induction labels as [|c' labels IH]; cbn; [tauto|].
  destruct (String.eqb c' c) eqn:E; [discriminate|].
  apply String.eqb_neq in E.
  destruct (label_index c labels); cbn; [discriminate|].
  intros _ [H | H]; [congruence | exact (IH eq_refl H)].
Qed.

Lemma label_index_Some (c : string) (labels : list string) (i : nat) :
  label_index c labels = Some i -> nth_error labels i = Some c.
Proof.
  revert i. induction labels as [|c' labels IH]; intros i; cbn; [discriminate|].
  destruct (String.eqb c' c) eqn:E.
  - apply String.eqb_eq in E. intros [= <-]. cbn. congruence.
  - destruct (label_index c labels); cbn; [|discriminate].
    intros [= <-]. cbn. apply IH. reflexivity.
Qed.

Section FrameProperties.
Context {num : Type}.

Implicit Types (df : DataFrame num) (row : list (cell num)).

(** A row built label by label is read back label by label. *)
Lemma cell_at_map (f : string -> cell num) (labels : list string) (c : string) :
  cell_at labels (map f labels) c
  = if existsb (String.eqb c) labels then f c else NaN.
Proof.
  unfold cell_at. destruct (label_index c labels) as [i|] eqn:E.
  - apply label_index_Some in E.
    assert (Hin : In c labels) by (eapply nth_error_In; exact E).
    apply existsb_eqb_In in Hin. rewrite Hin.
    apply nth_error_nth. rewrite nth_error_map, E. reflexivity.
  - apply label_index_None, existsb_eqb_not_In in E. rewrite E. reflexivity.
Qed.

Lemma map_labelled_map (f : string -> cell num -> cell num) (g : string -> cell num)
    (labels : list string) :
  map_labelled f labels (map g labels) = map (fun c => f c (g c)) labels.
Proof.
  induction labels as [|c labels IH]; cbn; [reflexivity|]. rewrite IH. reflexivity.
Qed.

Lemma map_labelled_length (f : string -> cell num -> cell num) (labels : list string) row :
  length (map_labelled f labels row) = length row.
Proof.
  revert row. induction labels as [|c labels IH]; intros [|x row]; cbn; auto.
Qed.

Lemma map_labelled_nth_error (f : string -> cell num -> cell num)
    (labels : list string) row (j : nat) (c : string) (x : cell num) :
  nth_error labels j = Some c -> nth_error row j = Some x ->
  nth_error (map_labelled f labels row) j = Some (f c x).
Proof.
  revert row j. induction labels as [|c' labels IH]; intros [|x' row] [|j]; cbn;
    try discriminate.
  - intros [= ->] [= ->]. reflexivity.
  - apply IH.
Qed.

Lemma map_combine_repeat {A B C} (h : A * B -> C) (l : list A) (v : B) :
  map h (combine l (repeat v (length l))) = map (fun a => h (a, v)) l.
Proof.
  induction l as [|a l IH]; cbn; [reflexivity|]. rewrite IH. reflexivity.
Qed.


Lemma json_normalize_generated (recs : list (record num)) :
  generated (json_normalize recs) flat_record recs.
Proof.
  destruct recs as [|r recs]; [split; [reflexivity | intros ? ? []]|].
  unfold json_normalize, DataFrame_of_dicts.
  set (rs := r :: recs). split; cbn [rows columns].
  - rewrite map_map. reflexivity.
  - intros x c Hx Hc. unfold flat_record.
    destruct (dict_get c (normalise_json_ordered x)) as [v|] eqn:E; [|reflexivity].
    exfalso. apply Hc. apply In_union_labels.
    exists (map fst (normalise_json_ordered x)). split.
    + apply in_map. apply in_map. exact Hx.
    + eapply dict_get_Some_In. exact E.
Qed.

Lemma setitem_scalar_generated {X} df (g : X -> string -> cell num) (xs : list X)
    (key : string) (v : cell num) :
  generated df g xs ->
  generated (setitem_scalar df key v)
            (fun x c => if String.eqb c key then v else g x c) xs
  /\ In key (columns (setitem_scalar df key v)).
Proof.
  intros [Hrows Hoff]. unfold setitem_scalar, setitem_column.
  rewrite !map_combine_repeat.
  destruct (existsb (String.eqb key) (columns df)) eqn:E; cbn [rows columns fst snd].
  - apply existsb_eqb_In in E. split; [split|exact E].
    + rewrite Hrows, map_map. apply map_ext. intros x.
      apply map_labelled_map.
    + intros x c Hx Hc. destruct (String.eqb c key) eqn:Ec.
      * apply String.eqb_eq in Ec. subst. contradiction.
      * apply Hoff; assumption.
  - apply existsb_eqb_not_In in E. split; [split|].
    + rewrite Hrows, map_map. apply map_ext. intros x.
      cbn [columns]. rewrite map_app. cbn. rewrite String.eqb_refl. f_equal.
      apply map_ext_in. intros c Hc.
      destruct (String.eqb c key) eqn:Ec; [|reflexivity].
      apply String.eqb_eq in Ec. subst. contradiction.
    + intros x c Hx Hc. cbn [columns] in Hc. rewrite in_app_iff in Hc. cbn in Hc.
      destruct (String.eqb c key) eqn:Ec.
      * apply String.eqb_eq in Ec. subst. tauto.
      * apply Hoff; tauto.
    + apply in_app_iff. cbn. auto.
Qed.

Lemma reindex_generated {X} df (g : X -> string -> cell num) (xs : list X)
    (cols : list string) :
  generated df g xs ->
  map (reindex_row (columns df) cols) (rows df) = map (fun x => map (g x) cols) xs.
Proof.
  intros [Hrows Hoff]. rewrite Hrows, map_map. apply map_ext_in. intros x Hx.
  unfold reindex_row. apply map_ext. intros c. rewrite cell_at_map.
  destruct (existsb (String.eqb c) (columns df)) eqn:E; [reflexivity|].
  apply existsb_eqb_not_In in E. symmetry. apply Hoff; assumption.
Qed.

End FrameProperties.


(** ** The normalisation cell *)

Section CellProperties.
Context {num : Type}.
Variable parse_number : string -> option num.
Variable month_of : cell num -> option (cell num).

Lemma add_names_nil (no2_dfs : list (DataFrame num)) : add_names no2_dfs [] = no2_dfs.
Proof. destruct no2_dfs; reflexivity. Qed.

Lemma add_names_length (no2_dfs : list (DataFrame num)) (names : list string) :
  length (add_names no2_dfs names) = length no2_dfs.
Proof.
  revert names. induction no2_dfs as [|df no2_dfs IH]; intros [|capital names]; cbn; auto.
Qed.

(** The frames handed to [pd.concat] have pairwise distinct labels, as the
    model of [pd.concat] expects. *)
Lemma json_normalize_labels_distinct (recs : list (record num)) :
  List.NoDup (columns (json_normalize recs)).
Proof.
  destruct recs as [|r recs]; [constructor|]. apply NoDup_union_labels.
Qed.

Lemma setitem_scalar_labels_distinct (df : DataFrame num) (key : string) (v : cell num) :
  List.NoDup (columns df) -> List.NoDup (columns (setitem_scalar df key v)).
Proof.
  intros Hnd. unfold setitem_scalar, setitem_column.
  pose proof (NoDup_add_label key (columns df) Hnd) as H. unfold add_label in H.
  destruct (existsb (String.eqb key) (columns df)); exact H.
Qed.

Lemma add_names_labels_distinct (pollution_stats : list (response num))
    (names : list string) :
  Forall (fun df => List.NoDup (columns df))
         (add_names (normalize_each pollution_stats) names).
Proof.
  revert names. induction pollution_stats as [|stats pollution_stats IH]; intros names.
  - destruct names; constructor.
  - destruct names as [|capital names]; cbn [normalize_each map add_names].
    + constructor; [apply json_normalize_labels_distinct|].
      rewrite <- (add_names_nil (map _ pollution_stats)). apply IH.
    + constructor; [|apply IH].
      apply setitem_scalar_labels_distinct, json_normalize_labels_distinct.
Qed.

(** Frame after frame, the re-indexed rows of the tagged frames are the
    expected rows. *)
Lemma tagged_frames_rows (cols : list string) (pollution_stats : list (response num))
    (names : list string) :
  flat_map (fun df => map (reindex_row (columns df) cols) (rows df))
           (add_names (normalize_each pollution_stats) names)
  = expected_rows cols pollution_stats names.
Proof.
  revert names. induction pollution_stats as [|stats pollution_stats IH]; intros names.
  - reflexivity.
  - destruct names as [|capital names]; cbn [normalize_each map add_names flat_map
                                             expected_rows head tail].
    + f_equal.
      * apply (reindex_generated _ _ _ cols (json_normalize_generated (data stats))).
      * rewrite <- (IH []), add_names_nil. reflexivity.
    + f_equal; [|apply IH].
      destruct (setitem_scalar_generated _ _ _ "name" (Val (JStr capital))
                  (json_normalize_generated (data stats))) as [Hgen _].
      apply (reindex_generated _ _ _ cols Hgen).
Qed.

Lemma flatten_tag_concat_nil (names : list string) :
  flatten_tag_concat (num:=num) [] names = Raise ValueError_NoObjectsToConcatenate.
Proof. destruct names; reflexivity. Qed.

Lemma flatten_tag_concat_rows (pollution_stats : list (response num)) (names : list string) :
  pollution_stats <> [] ->
  exists T, flatten_tag_concat pollution_stats names = Ok T
            /\ columns T
               = union_labels (map columns (add_names (normalize_each pollution_stats) names))
            /\ rows T = expected_rows (columns T) pollution_stats names.
Proof.
  intros Hne. unfold flatten_tag_concat, concat_frames.
  destruct (add_names (normalize_each pollution_stats) names) as [|df dfs] eqn:E.
  - apply (f_equal (@length _)) in E.
    rewrite add_names_length in E. unfold normalize_each in E.
    rewrite length_map in E. destruct pollution_stats; [congruence | discriminate].
  - eexists. split; [reflexivity|]. cbn [rows columns]. split; [reflexivity|].
    rewrite <- E. apply tagged_frames_rows.
Qed.

Lemma expected_rows_length (cols : list string) (pollution_stats : list (response num))
    (names : list string) :
  length (expected_rows cols pollution_stats names) = bucket_count pollution_stats.
Proof.
  revert names. unfold bucket_count.
  induction pollution_stats as [|stats pollution_stats IH]; intros names; cbn; [reflexivity|].
  rewrite length_app, IH. unfold unit_rows. rewrite length_map. reflexivity.
Qed.

Lemma mapM_Ok_map {A B} (f : A -> result B) (d : B) (l : list A) (ys : list B) :
  mapM f l = Ok ys ->
  ys = map (fun x => match f x with Ok y => y | Raise _ => d end) l.
Proof.
  revert ys. induction l as [|x l IH]; intros ys; cbn.
  - intros [= <-]. reflexivity.
  - destruct (f x) as [y|e]; cbn; [|discriminate].
    destruct (mapM f l) as [ys'|e]; cbn; [|discriminate].
    intros [= <-]. f_equal. apply IH. reflexivity.
Qed.

Lemma map_combine_map {A B C} (h : A * B -> C) (k : A -> B) (l : list A) :
  map h (combine l (map k l)) = map (fun a => h (a, k a)) l.
Proof.
  induction l as [|a l IH]; cbn; [reflexivity|]. rewrite IH. reflexivity.
Qed.

Lemma mapM_last_segment_segment (labels : list string) :
  mapM last_segment labels = Ok (map segment labels).
Proof.
  destruct (mapM_last_segment labels) as (labels' & HM & _).
  rewrite HM. f_equal. apply (mapM_Ok_map _ ""%string) in HM. rewrite HM.
  apply map_ext. intros x. unfold segment.
  destruct (last_segment_final x) as (seg & Hseg & _). rewrite Hseg. reflexivity.
Qed.

(** The steps after the concatenation work row by row. *)
Lemma normalization_rows (pollution_stats : list (response num)) (names : list string)
    (T : DataFrame num) :
  normalization parse_number month_of pollution_stats names = Ok T ->
  exists T0, flatten_tag_concat pollution_stats names = Ok T0
             /\ columns T = final_labels (columns T0)
             /\ rows T = map (final_row parse_number month_of (columns T0)) (rows T0).
Proof.
  unfold normalization.
  destruct (flatten_tag_concat pollution_stats names) as [T0|e]; cbn [bind]; [|discriminate].
  intros H. exists T0. split; [reflexivity|].
  unfold simplify_names, rename_columns in H.
  rewrite mapM_last_segment_segment in H. cbn [bind] in H.
  unfold add_month, month_series in H. cbn [columns rows coerce_stats apply_columns] in H.
  destruct (count_occ string_dec (map segment (columns T0)) "from") as [|[|n]];
    cbn [bind] in H; [discriminate| |].
  - destruct (mapM _ _) as [months|e] eqn:HM in H; cbn [bind] in H; [|discriminate].
    injection H as <-.
    apply (mapM_Ok_map _ []) in HM. subst months.
    unfold setitem_column. cbn [columns rows].
    set (rows1 := map (map_labelled _ _) (rows T0)).
    rewrite !map_map, !map_combine_map. subst rows1. rewrite !map_map.
    unfold final_labels, final_row, month_value, stat_columns.
    destruct (existsb (String.eqb "month") (map segment (columns T0)));
      cbn [columns rows fst snd]; (split; [reflexivity|]); apply map_ext; intros row;
      destruct (mapM _ (cells_labelled _ _ _)); reflexivity.
  - destruct (mapM _ _) as [months|e] in H; cbn [bind] in H; discriminate.
Qed.

(** A cell keeps its place in the final row, coerced if its column is a
    statistic, unless its column is renamed to ["month"]. *)
Lemma final_row_nth_error (labels : list string) (row : list (cell num)) (j : nat)
    (label : string) (x : cell num) :
  nth_error labels j = Some label -> nth_error row j = Some x ->
  segment label <> "month" ->
  nth_error (final_row parse_number month_of labels row) j
  = Some (if str_contains "stats" label then to_numeric_coerce parse_number x else x).
Proof.
  intros Hlabel Hx Hseg. unfold final_row.
  set (f := fun c x => if existsb (String.eqb c) (List.filter (str_contains "stats") labels)
                        then to_numeric_coerce parse_number x else x).
  assert (Hc : nth_error (map_labelled f labels row) j
               = Some (if str_contains "stats" label
                       then to_numeric_coerce parse_number x else x)).
  { rewrite (map_labelled_nth_error _ _ _ _ _ _ Hlabel Hx). unfold f.
    assert (Hin : In label labels) by (eapply nth_error_In; exact Hlabel).
    destruct (str_contains "stats" label) eqn:E.
    - assert (He : existsb (String.eqb label) (List.filter (str_contains "stats") labels)
                   = true) by (apply existsb_eqb_In, filter_In; auto).
      rewrite He. reflexivity.
    - assert (He : existsb (String.eqb label) (List.filter (str_contains "stats") labels)
                   = false)
        by (apply existsb_eqb_not_In; rewrite filter_In; intros [_ H]; congruence).
      rewrite He. reflexivity. }
  destruct (existsb (String.eqb "month") (map segment labels)).
  - assert (Hr : nth_error (map segment labels) j = Some (segment label))
      by (rewrite nth_error_map, Hlabel; reflexivity).
    rewrite (map_labelled_nth_error _ _ _ _ _ _ Hr Hc).
    destruct (String.eqb (segment label) "month") eqn:E; [|reflexivity].
    apply String.eqb_eq in E. contradiction.
  - rewrite nth_error_app1; [exact Hc|].
    apply nth_error_Some. rewrite Hc. discriminate.
Qed.

Lemma Forall2_final_segment_segment (labels : list string) :
  Forall2 final_segment_of labels (map segment labels).
Proof.
  destruct (mapM_last_segment labels) as (labels' & HM & HF).
  rewrite mapM_last_segment_segment in HM. injection HM as <-. exact HF.
Qed.

(** C8: renaming never raises, leaves the rows alone, and gives every column
    the final dot-separated segment of its nested key; ["interval.from"]
    becomes ["from"], ["outputs.default.bands.NO2.stats.mean"] becomes
    ["mean"], and a label without a dot is left as it is; the table written
    at the end of the cell carries these labels, followed by ["month"] unless
    one of them is ["month"] already. *)
Theorem simplify_names_final_segment (no2_df : DataFrame num) :
  (exists renamed,
      simplify_names no2_df = Ok renamed
      /\ rows renamed = rows no2_df
      /\ Forall2 final_segment_of (columns no2_df) (columns renamed))
  /\ last_segment "interval.from" = Ok "from"
  /\ last_segment "outputs.default.bands.NO2.stats.mean" = Ok "mean"
  /\ (forall x, dotless x -> last_segment x = Ok x)
  /\ (forall pollution_stats names T,
        normalization parse_number month_of pollution_stats names = Ok T ->
        exists T0 renamed,
          flatten_tag_concat pollution_stats names = Ok T0
          /\ Forall2 final_segment_of (columns T0) renamed
          /\ (columns T = renamed \/ columns T = renamed ++ ["month"])).
Proof.
  split; [|split; [reflexivity | split; [reflexivity | split]]].
  - unfold simplify_names, rename_columns.
    rewrite mapM_last_segment_segment. cbn. eexists. split; [reflexivity|].
    split; [reflexivity | apply Forall2_final_segment_segment].
  - intros x Hx. unfold last_segment. rewrite (str_split_dotless _ Hx). reflexivity.
  - intros pollution_stats names T HT.
    apply normalization_rows in HT as (T0 & H0 & Hcols & _).
    exists T0, (map segment (columns T0)). split; [exact H0|].
    split; [apply Forall2_final_segment_segment|].
    rewrite Hcols. unfold final_labels. destruct (existsb _ _); auto.
Qed.

(** The tables are well formed: one cell per column in every row. *)
Lemma reindexed_rows_length (cols : list string) (objs : list (DataFrame num)) :
  Forall (fun row => length row = length cols)
         (flat_map (fun df => map (reindex_row (columns df) cols) (rows df)) objs).
Proof.
  apply List.Forall_forall. intros row Hrow.
  apply in_flat_map in Hrow as (df & _ & Hrow).
  apply in_map_iff in Hrow as (row0 & <- & _).
  unfold reindex_row. apply length_map.
Qed.

Lemma flatten_tag_concat_well_formed (pollution_stats : list (response num))
    (names : list string) (T0 : DataFrame num) :
  flatten_tag_concat pollution_stats names = Ok T0 -> well_formed T0.
Proof.
  unfold flatten_tag_concat, concat_frames.
  destruct (add_names _ _) as [|df dfs]; [discriminate|]. intros [= <-].
  exact (reindexed_rows_length (union_labels (map columns (df :: dfs))) (df :: dfs)).
Qed.

Lemma final_row_length (labels : list string) (row : list (cell num)) :
  length row = length labels ->
  length (final_row parse_number month_of labels row) = length (final_labels labels).
Proof.
  intros Hlen. unfold final_row, final_labels.
  destruct (existsb (String.eqb "month") (map segment labels)).
  - rewrite !map_labelled_length, length_map. exact Hlen.
  - rewrite !length_app, map_labelled_length, length_map, Hlen. reflexivity.
Qed.

Lemma normalization_well_formed (pollution_stats : list (response num))
    (names : list string) (T : DataFrame num) :
  normalization parse_number month_of pollution_stats names = Ok T -> well_formed T.
Proof.
  intros H. apply normalization_rows in H as (T0 & H0 & Hcols & Hrows).
  apply flatten_tag_concat_well_formed in H0.
  unfold well_formed in *. rewrite Hrows, Hcols.
  apply List.Forall_forall. intros row Hrow.
  apply in_map_iff in Hrow as (row0 & <- & Hrow0).
  apply final_row_length. rewrite List.Forall_forall in H0. apply H0. exact Hrow0.
Qed.

Lemma normalization_length (pollution_stats : list (response num)) (names : list string)
    (T : DataFrame num) :
  normalization parse_number month_of pollution_stats names = Ok T ->
  length (rows T) = bucket_count pollution_stats.
Proof.
  intros H. apply normalization_rows in H as (T0 & H0 & _ & ->).
  rewrite length_map.
  destruct pollution_stats as [|stats pollution_stats].
  - rewrite flatten_tag_concat_nil in H0. discriminate.
  - destruct (flatten_tag_concat_rows (stats :: pollution_stats) names)
      as (T0' & H0' & _ & Hrows); [discriminate|].
    rewrite H0 in H0'. injection H0' as <-.
    rewrite Hrows. apply expected_rows_length.
Qed.

(** C1, amended: for every non-empty list of responses the flatten, tag and
    concatenate steps produce a table with one row per time-bucket record,
    their number being the sum over the units; the table written at the end
    of the cell has that many rows too. *)
Theorem normalization_row_count (pollution_stats : list (response num))
    (names : list string) :
  pollution_stats <> [] ->
  (exists T0, flatten_tag_concat pollution_stats names = Ok T0
              /\ length (rows T0) = bucket_count pollution_stats)
  /\ (forall T, normalization parse_number month_of pollution_stats names = Ok T ->
                length (rows T) = bucket_count pollution_stats).
Proof.
  intros Hne. split.
  - destruct (flatten_tag_concat_rows pollution_stats names Hne) as (T0 & H0 & _ & Hrows).
    exists T0. split; [exact H0|]. rewrite Hrows. apply expected_rows_length.
  - intros T. apply normalization_length.
Qed.

(** C3: the rows of the concatenated table are the rows of the first unit,
    then those of the second, and so on, each unit's rows in the order of the
    records of its response, none dropped, merged or moved; the call fails
    only when there is no response at all; the later steps rewrite each row
    in place. *)
Theorem concat_rows_in_input_order (pollution_stats : list (response num))
    (names : list string) :
  match flatten_tag_concat pollution_stats names with
  | Ok T0 => rows T0 = expected_rows (columns T0) pollution_stats names
  | Raise _ => pollution_stats = []
  end
  /\ (forall T, normalization parse_number month_of pollution_stats names = Ok T ->
      exists T0, flatten_tag_concat pollution_stats names = Ok T0
                 /\ rows T = map (final_row parse_number month_of (columns T0))
                                 (expected_rows (columns T0) pollution_stats names)).
Proof.
  assert (Hfirst : match flatten_tag_concat pollution_stats names with
                   | Ok T0 => rows T0 = expected_rows (columns T0) pollution_stats names
                   | Raise _ => pollution_stats = []
                   end).
  { destruct pollution_stats as [|stats pollution_stats].
    - rewrite flatten_tag_concat_nil. reflexivity.
    - destruct (flatten_tag_concat_rows (stats :: pollution_stats) names)
        as (T0 & H0 & _ & Hrows); [discriminate|].
      rewrite H0. exact Hrows. }
  split; [exact Hfirst|].
  intros T H. apply normalization_rows in H as (T0 & H0 & _ & ->).
  exists T0. split; [exact H0|]. rewrite H0 in Hfirst. rewrite Hfirst. reflexivity.
Qed.

Lemma expected_rows_combine (cols : list string) (pollution_stats : list (response num))
    (names : list string) :
  length names = length pollution_stats ->
  expected_rows cols pollution_stats names
  = concat (map (fun sn => unit_rows cols (Some (snd sn)) (fst sn))
                (combine pollution_stats names)).
Proof.
  revert names.
  induction pollution_stats as [|stats pollution_stats IH]; intros [|capital names];
    cbn; try discriminate; [reflexivity|].
  intros [= Hlen]. rewrite (IH _ Hlen). reflexivity.
Qed.

Lemma Forall2_map_right {A B} (P : A -> B -> Prop) (g : A -> B) (l : list A) :
  (forall a, In a l -> P a (g a)) -> Forall2 P l (map g l).
Proof.
  induction l as [|a l IH]; intros H; cbn; constructor.
  - apply H. left. reflexivity.
  - apply IH. intros a' Ha'. apply H. right. exact Ha'.
Qed.

Lemma name_in_columns (pollution_stats : list (response num)) (names : list string)
    (T0 : DataFrame num) :
  length names = length pollution_stats -> pollution_stats <> [] ->
  flatten_tag_concat pollution_stats names = Ok T0 ->
  In "name" (columns T0).
Proof.
  intros Hlen Hne H0.
  destruct (flatten_tag_concat_rows pollution_stats names Hne) as (T & HT & Hcols & _).
  rewrite H0 in HT. injection HT as <-. rewrite Hcols.
  destruct pollution_stats as [|stats pollution_stats]; [congruence|].
  destruct names as [|capital names]; [discriminate|].
  apply In_union_labels. cbn [normalize_each map add_names].
  eexists. split; [left; reflexivity|].
  apply (setitem_scalar_generated _ _ _ "name" (Val (JStr capital))
           (json_normalize_generated (data stats))).
Qed.

(** C7: with one name per response, the concatenated table is made of one
    block of rows per unit, the i-th block flattened from the i-th response,
    and every row of that block reads the i-th name under ["name"]; in the
    table written at the end of the cell the blocks are still there, row for
    row, and the name still stands in its column. *)
Theorem rows_tagged_with_unit_name (pollution_stats : list (response num))
    (names : list string) :
  length names = length pollution_stats ->
  match flatten_tag_concat pollution_stats names with
  | Ok T0 =>
      (exists blocks,
          rows T0 = concat blocks
          /\ Forall2 (unit_block T0) (combine pollution_stats names) blocks)
      /\ (forall T, normalization parse_number month_of pollution_stats names = Ok T ->
          exists j blocks,
            nth_error (columns T) j = Some "name"
            /\ rows T = concat blocks
            /\ Forall2 (final_unit_block j) (combine pollution_stats names) blocks)
  | Raise _ => pollution_stats = []
  end.
Proof.
  intros Hlen.
  destruct pollution_stats as [|stats pollution_stats].
  { rewrite flatten_tag_concat_nil. reflexivity. }
  destruct (flatten_tag_concat_rows (stats :: pollution_stats) names)
    as (T0 & H0 & _ & Hrows); [discriminate|].
  rewrite H0.
  assert (Hin : In "name" (columns T0))
    by (eapply name_in_columns; [exact Hlen | discriminate | exact H0]).
  rewrite (expected_rows_combine _ _ _ Hlen) in Hrows.
  split.
  - eexists. split; [exact Hrows|].
    apply Forall2_map_right. intros [s capital] _. split; [reflexivity|].
    unfold unit_rows. apply List.Forall_forall. intros row Hrow.
    apply in_map_iff in Hrow as (r & <- & _). rewrite cell_at_map.
    apply existsb_eqb_In in Hin. rewrite Hin. reflexivity.
  - intros T HT. apply normalization_rows in HT as (T0' & H0' & Hcols & HrowsT).
    rewrite H0 in H0'. injection H0' as <-.
    apply In_nth_error in Hin as [j Hj].
    exists j. eexists. split; [|split].
    + rewrite Hcols. unfold final_labels.
      assert (Hr : nth_error (map segment (columns T0)) j = Some "name")
        by (rewrite nth_error_map, Hj; reflexivity).
      destruct (existsb _ _); [exact Hr|].
      rewrite nth_error_app1; [exact Hr|]. apply nth_error_Some. rewrite Hr. discriminate.
    + rewrite HrowsT, Hrows, concat_map, map_map. reflexivity.
    + apply Forall2_map_right. intros [s capital] _. cbn [fst snd]. split.
      * unfold unit_rows. rewrite !length_map. reflexivity.
      * apply List.Forall_forall. intros row Hrow.
        apply in_map_iff in Hrow as (row0 & <- & Hrow0).
        unfold unit_rows in Hrow0. apply in_map_iff in Hrow0 as (r & <- & _).
        rewrite (final_row_nth_error _ _ j "name" (Val (JStr capital)));
          [reflexivity | exact Hj | | discriminate].
        rewrite nth_error_map, Hj. reflexivity.
Qed.

Lemma stat_columns_existsb (T0 : DataFrame num) (label : string) :
  In label (columns T0) ->
  existsb (String.eqb label) (stat_columns T0) = str_contains "stats" label.
Proof.
  intros Hin. unfold stat_columns.
  destruct (str_contains "stats" label) eqn:E.
  - apply existsb_eqb_In, filter_In. auto.
  - apply existsb_eqb_not_In. rewrite filter_In. intros [_ H]. congruence.
Qed.

Lemma mapM_Raise {A B} (f : A -> result B) (P : exn -> Prop) (l : list A) (e : exn) :
  (forall x e', f x = Raise e' -> P e') -> mapM f l = Raise e -> P e.
Proof.
  intros Hf. induction l as [|x l IH]; cbn; [discriminate|].
  destruct (f x) as [y|e'] eqn:E; cbn.
  - destruct (mapM f l) as [ys|e'']; cbn; [discriminate|].
    intros [= <-]. apply IH. reflexivity.
  - intros [= <-]. eapply Hf. exact E.
Qed.

Lemma month_conversion_Raise (cellss : list (list (cell num))) (e : exn) :
  mapM (mapM (fun x => match month_of x with
                       | Some m => Ok m
                       | None => Raise DatetimeParseError
                       end)) cellss = Raise e ->
  e = DatetimeParseError.
Proof.
  apply (mapM_Raise _ (fun e => e = DatetimeParseError)). intros cells e'.
  apply (mapM_Raise _ (fun e => e = DatetimeParseError)). intros x e''.
  destruct (month_of x); [discriminate | intros [= <-]; reflexivity].
Qed.

(** The only exceptions of the cell's pipeline: the refusal to concatenate
    nothing, and the three failures of the month derivation. *)
Lemma normalization_Raise (pollution_stats : list (response num)) (names : list string)
    (e : exn) :
  normalization parse_number month_of pollution_stats names = Raise e ->
  (pollution_stats = [] /\ e = ValueError_NoObjectsToConcatenate)
  \/ e = KeyError "from" \/ e = AttributeError "dt" \/ e = DatetimeParseError.
Proof.
  unfold normalization.
  destruct pollution_stats as [|stats pollution_stats].
  { rewrite flatten_tag_concat_nil. cbn. intros [= <-]. auto. }
  destruct (flatten_tag_concat_rows (stats :: pollution_stats) names)
    as (T0 & H0 & _); [discriminate|].
  rewrite H0. cbn [bind]. unfold simplify_names, rename_columns.
  rewrite mapM_last_segment_segment. cbn [bind]. unfold add_month, month_series.
  destruct (count_occ _ _ _) as [|[|n]]; cbn [bind].
  - intros [= <-]. auto.
  - destruct (mapM _ _) as [months|e'] eqn:HM; cbn [bind]; [discriminate|].
    intros [= <-]. right. right. right. exact (month_conversion_Raise _ _ HM).
  - destruct (mapM _ _) as [months|e'] eqn:HM; cbn [bind].
    + intros [= <-]. auto.
    + intros [= <-]. right. right. right. exact (month_conversion_Raise _ _ HM).
Qed.

Lemma to_numeric_coerce_cases (x : cell num) :
  (if parses_as_number parse_number x then to_numeric_coerce parse_number x else NaN)
  = to_numeric_coerce parse_number x.
Proof.
  destruct x as [|[| | |s| |]]; cbn; try reflexivity.
  destruct (parse_number s); reflexivity.
Qed.

(** C2: the coercion step is a function of the table (it cannot raise), keeps
    every row and every label, puts NaN where a statistic column holds a
    value that does not read as a number, and leaves the columns whose label
    does not contain ["stats"] untouched; whatever the cell raises comes from
    the concatenation or from the month derivation; the table it writes has a
    row for every time bucket and holds the same cell at the same place,
    unless the column came to be labelled ["month"]. *)
Theorem unparseable_statistic_becomes_nan (pollution_stats : list (response num))
    (names : list string) :
  (forall T0, flatten_tag_concat pollution_stats names = Ok T0 ->
     columns (coerce_stats parse_number T0) = columns T0
     /\ length (rows (coerce_stats parse_number T0)) = length (rows T0)
     /\ forall i j row label x,
          nth_error (rows T0) i = Some row ->
          nth_error (columns T0) j = Some label ->
          nth_error row j = Some x ->
          (exists row',
              nth_error (rows (coerce_stats parse_number T0)) i = Some row'
              /\ length row' = length row
              /\ nth_error row' j
                 = Some (if str_contains "stats" label
                         then (if parses_as_number parse_number x
                               then to_numeric_coerce parse_number x else NaN)
                         else x))
          /\ (forall T,
                normalization parse_number month_of pollution_stats names = Ok T ->
                segment label <> "month" ->
                exists row',
                  nth_error (rows T) i = Some row'
                  /\ nth_error row' j
                     = Some (if str_contains "stats" label
                             then (if parses_as_number parse_number x
                                   then to_numeric_coerce parse_number x else NaN)
                             else x)))
  /\ (forall e, normalization parse_number month_of pollution_stats names = Raise e ->
        (pollution_stats = [] /\ e = ValueError_NoObjectsToConcatenate)
        \/ e = KeyError "from" \/ e = AttributeError "dt" \/ e = DatetimeParseError)
  /\ (forall T, normalization parse_number month_of pollution_stats names = Ok T ->
        length (rows T) = bucket_count pollution_stats).
Proof.
  split; [|split; [apply normalization_Raise | apply normalization_length]].
  intros T0 H0. split; [reflexivity|]. split; [apply length_map|].
  intros i j row label x Hrow Hlabel Hx.
  rewrite !(to_numeric_coerce_cases x). split.
  - exists (map_labelled
              (fun c x => if existsb (String.eqb c) (stat_columns T0)
                          then to_numeric_coerce parse_number x else x)
              (columns T0) row).
    split; [|split].
    + unfold coerce_stats, apply_columns. cbn [rows].
      rewrite nth_error_map, Hrow. reflexivity.
    + apply map_labelled_length.
    + rewrite (map_labelled_nth_error _ _ _ _ _ _ Hlabel Hx).
      rewrite stat_columns_existsb by (eapply nth_error_In; exact Hlabel).
      reflexivity.
  - intros T HT Hseg. apply normalization_rows in HT as (T0' & H0' & _ & HrowsT).
    rewrite H0 in H0'. injection H0' as <-.
    exists (final_row parse_number month_of (columns T0) row). split.
    + rewrite HrowsT, nth_error_map, Hrow. reflexivity.
    + apply final_row_nth_error; assumption.
Qed.

(** C4: the cell reads only the payload and the names, which it leaves as
    they are, and binds everything else afresh: run again on the namespace it
    left behind, it leaves the same namespace, with the same table under
    [no2_df] and in the file, or stops on the same exception; that table is
    the value of [normalization] on the payload. *)
Theorem run_cell_twice_same_table (ns : namespace num) :
  run_cell parse_number month_of (fst (run_cell parse_number month_of ns))
  = run_cell parse_number month_of ns
  /\ pollution_stats (fst (run_cell parse_number month_of ns)) = pollution_stats ns
  /\ selected_capitals_name (fst (run_cell parse_number month_of ns))
     = selected_capitals_name ns
  /\ match snd (run_cell parse_number month_of ns) with
     | None =>
         exists T,
           normalization parse_number month_of
             (pollution_stats ns) (selected_capitals_name ns) = Ok T
           /\ no2_df (fst (run_cell parse_number month_of ns)) = Some T
           /\ no2_capitals_timeseries_csv (fst (run_cell parse_number month_of ns)) = Some T
     | Some e =>
         normalization parse_number month_of
           (pollution_stats ns) (selected_capitals_name ns) = Raise e
     end.
Proof.
  destruct ns as [stats names dfs cols df csv].
  unfold normalization, flatten_tag_concat, coerce_stats.
  unfold run_cell at 2 3 4 5 6 7. simpl.
  destruct (concat_frames (add_names (normalize_each stats) names)) as [T0|e] eqn:E0.
  2: { unfold run_cell. simpl. rewrite E0. auto. }
  simpl.
  destruct (simplify_names _) as [T1|e] eqn:E1.
  2: { unfold run_cell. simpl. rewrite E0. simpl. rewrite E1. auto. }
  destruct (add_month month_of T1) as [T2|e] eqn:E2.
  2: { unfold run_cell. simpl. rewrite E0. simpl. rewrite E1, E2. auto. }
  unfold run_cell. simpl. rewrite E0. simpl. rewrite E1, E2. simpl.
  split; [reflexivity|]. split; [reflexivity|]. split; [reflexivity|].
  exists T2. auto.
Qed.

End CellProperties.

(** ** The parallel download call *)

Section FetchProperties.
Context {request payload : Type}.
Variable fetch : request -> option payload.

Implicit Types (requests : list request) (completed : list nat)
  (data_list results : list (option payload)).

Lemma collect_length requests completed data_list results :
  collect fetch requests completed data_list = Ok results ->
  length results = length data_list.
Proof.
  revert data_list. induction completed as [|j completed IH]; intros data_list; cbn.
  - intros [= <-]. reflexivity.
  - destruct (requests !! j) as [rq|]; [|apply IH].
    destruct (fetch rq) as [r|]; [|discriminate].
    intros H. apply IH in H. rewrite H. apply length_insert.
Qed.

(** A position that never completes keeps what the list held there. *)
Lemma collect_untouched requests completed data_list results (i : nat) :
  i ∉ completed ->
  collect fetch requests completed data_list = Ok results ->
  results !! i = data_list !! i.
Proof.
  revert data_list. induction completed as [|j completed IH]; intros data_list Hi; cbn.
  - intros [= <-]. reflexivity.
  - apply not_elem_of_cons in Hi as [Hne Hi].
    destruct (requests !! j) as [rq|]; [|apply IH; exact Hi].
    destruct (fetch rq) as [r|]; [|discriminate].
    intros H. rewrite (IH _ Hi H). apply list_lookup_insert_ne. congruence.
Qed.

(** A position that completes holds the payload fetched for its request. *)
Lemma collect_completed requests completed data_list results (i : nat) (rq : request) :
  i ∈ completed -> requests !! i = Some rq -> i < length data_list ->
  collect fetch requests completed data_list = Ok results ->
  exists r, fetch rq = Some r /\ results !! i = Some (Some r).
Proof.
  revert data_list. induction completed as [|j completed IH]; intros data_list Hi Hrq Hlt; cbn.
  - apply elem_of_nil in Hi as [].
  - destruct (decide (i ∈ completed)) as [Hin|Hnin].
    + destruct (requests !! j) as [rq'|]; [|apply IH; assumption].
      destruct (fetch rq') as [r'|]; [|discriminate].
      apply IH; [assumption.. | rewrite length_insert; exact Hlt].
    + apply elem_of_cons in Hi as [->|Hi]; [|contradiction].
      rewrite Hrq. destruct (fetch rq) as [r|]; [|discriminate].
      intros H. exists r. split; [reflexivity|].
      rewrite (collect_untouched _ _ _ _ _ Hnin H).
      apply list_lookup_insert_eq. exact Hlt.
Qed.

(** The call raises exactly when a completed download has failed. *)
Lemma collect_Raise requests completed data_list (e : exn) :
  collect fetch requests completed data_list = Raise e ->
  exists j rq, e = DownloadFailedException j /\ j ∈ completed
               /\ requests !! j = Some rq /\ fetch rq = None.
Proof.
  revert data_list. induction completed as [|j completed IH]; intros data_list; cbn.
  - discriminate.
  - destruct (requests !! j) as [rq|] eqn:Hj.
    + destruct (fetch rq) as [r|] eqn:Hf.
      * intros H. apply IH in H as (j' & rq' & -> & Hin & Hrq & Hnone).
        exists j', rq'. repeat split; [apply elem_of_cons; auto | assumption..].
      * intros [= <-]. exists j, rq. repeat split; [apply elem_of_cons; auto | assumption..].
    + intros H. apply IH in H as (j' & rq' & -> & Hin & Hrq & Hnone).
      exists j', rq'. repeat split; [apply elem_of_cons; auto | assumption..].
Qed.

Lemma collect_failure requests completed data_list (j : nat) (rq : request) :
  j ∈ completed -> requests !! j = Some rq -> fetch rq = None ->
  exists position, collect fetch requests completed data_list
                   = Raise (DownloadFailedException position).
Proof.
  revert data_list. induction completed as [|k completed IH]; intros data_list Hj Hrq Hnone; cbn.
  - apply elem_of_nil in Hj as [].
  - destruct (requests !! k) as [rq'|] eqn:Hk.
    + destruct (fetch rq') as [r|] eqn:Hf; [|eauto].
      apply elem_of_cons in Hj as [->|Hj]; [congruence|]. apply IH; assumption.
    + apply elem_of_cons in Hj as [->|Hj]; [congruence|]. apply IH; assumption.
Qed.

Lemma completed_all requests completed (i : nat) :
  completed ≡ₚ seq 0 (length requests) ->
  i ∈ completed <-> i < length requests.
Proof.
  intros Hperm. rewrite Hperm, elem_of_seq. lia.
Qed.

(** When the call returns, it returns the payloads of the requests in the
    order of the requests. *)
Lemma download_Ok requests completed results :
  completed ≡ₚ seq 0 (length requests) ->
  download fetch requests completed = Ok results ->
  results = fetch <$> requests /\ Forall is_Some results.
Proof.
  intros Hperm H. unfold download in H.
  assert (Hlen : length results = length requests).
  { rewrite (collect_length _ _ _ _ H). apply length_replicate. }
  assert (Heq : results = fetch <$> requests).
  { apply list_eq. intros i. rewrite list_lookup_fmap.
    destruct (requests !! i) as [rq|] eqn:Hrq; cbn.
    - assert (Hlt : i < length requests) by (eapply lookup_lt_Some; exact Hrq).
      destruct (collect_completed _ _ _ _ i rq
                  (proj2 (completed_all _ _ i Hperm) Hlt) Hrq
                  ltac:(rewrite length_replicate; exact Hlt) H)
        as (r & Hr & Hres).
      rewrite Hres, Hr. reflexivity.
    - apply lookup_ge_None. rewrite Hlen. apply lookup_ge_None. exact Hrq. }
  split; [exact Heq|]. subst results.
  apply Forall_forall. intros o Ho.
  apply list_elem_of_fmap in Ho as (rq & -> & Hin).
  apply list_elem_of_lookup in Hin as (i & Hrq).
  assert (Hlt : i < length requests) by (eapply lookup_lt_Some; exact Hrq).
  destruct (collect_completed _ _ _ _ i rq
              (proj2 (completed_all _ _ i Hperm) Hlt) Hrq
              ltac:(rewrite length_replicate; exact Hlt) H)
    as (r & Hr & _).
  rewrite Hr. eexists. reflexivity.
Qed.

(** C5: whatever the order in which the downloads finish, the returned list
    has one result per request, and the i-th result is the payload fetched
    for the i-th request. *)
Theorem download_results_in_request_order requests completed results :
  completed ≡ₚ seq 0 (length requests) ->
  download fetch requests completed = Ok results ->
  length results = length requests
  /\ forall i rq, requests !! i = Some rq ->
       exists r, fetch rq = Some r /\ results !! i = Some (Some r).
Proof.
  intros Hperm H. destruct (download_Ok _ _ _ Hperm H) as [-> Hall].
  split; [apply length_fmap|].
  intros i rq Hrq.
  assert (Hi : (fetch <$> requests) !! i = Some (fetch rq))
    by (rewrite list_lookup_fmap, Hrq; reflexivity).
  rewrite Forall_lookup in Hall. destruct (Hall _ _ Hi) as [r Hr].
  exists r. split; [exact Hr|]. rewrite Hi, Hr. reflexivity.
Qed.

(** C6: whatever the order in which the downloads finish, one failed request
    makes the whole call raise, and no list is returned; when no request
    fails the call returns the result of every request. *)
Theorem download_all_or_nothing requests completed :
  completed ≡ₚ seq 0 (length requests) ->
  ((exists rq, rq ∈ requests /\ fetch rq = None) ->
     exists position, download fetch requests completed
                      = Raise (DownloadFailedException position))
  /\ ((forall rq, rq ∈ requests -> is_Some (fetch rq)) ->
        exists results, download fetch requests completed = Ok results
                        /\ results = fetch <$> requests
                        /\ Forall is_Some results).
Proof.
  intros Hperm. split.
  - intros (rq & Hin & Hnone).
    apply list_elem_of_lookup in Hin as (j & Hrq).
    apply (collect_failure _ _ _ j rq); [|assumption..].
    apply (completed_all _ _ j Hperm). eapply lookup_lt_Some. exact Hrq.
  - intros Hall.
    destruct (download fetch requests completed) as [results|e] eqn:H.
    + exists results. split; [reflexivity|]. apply (download_Ok _ _ _ Hperm H).
    + apply collect_Raise in H as (j & rq & _ & _ & Hrq & Hnone).
      destruct (Hall rq) as [r Hr]; [|congruence].
      apply list_elem_of_lookup. eauto.
Qed.

End FetchProperties.

(** ** The evalscript *)

Section EvalscriptProperties.
Context {num : Type}.
Variables (add sub mul div : num -> num -> num).
Variable of_Z : Z -> num.
Variable is_positive : num -> bool.
Variable nan : num.

Local Abbreviation ascending := (not_after sub is_positive).
Local Abbreviation consistent := (consistent_on sub is_positive).
Local Abbreviation insert_sorted := (sort_insert sub is_positive).
Local Abbreviation sorted_array := (array_sort sub is_positive).


Lemma sort_insert_Permutation (x : num) (l : list num) :
  Permutation (x :: l) (insert_sorted x l).
Proof.
  induction l as [|y l IH]; cbn; [reflexivity|].
  destruct (is_positive (compareFn sub x y)); [|reflexivity].
  rewrite perm_swap. apply perm_skip. exact IH.
Qed.

Lemma array_sort_Permutation (l : list num) : Permutation l (sorted_array l).
Proof.
  induction l as [|x l IH]; cbn; [reflexivity|].
  rewrite <- sort_insert_Permutation. apply perm_skip. exact IH.
Qed.

Lemma sort_insert_sorted (domain : list num) (x : num) (l : list num) :
  consistent domain -> In x domain -> (forall y, In y l -> In y domain) ->
  StronglySorted ascending l -> StronglySorted ascending (insert_sorted x l).
Proof.
  intros [Htotal Htrans] Hx. induction l as [|y l IH]; intros Hl Hs; cbn.
  - constructor; constructor.
  - apply StronglySorted_inv in Hs as [Hs Hy].
    assert (Hyd : In y domain) by (apply Hl; left; reflexivity).
    assert (Hld : forall z, In z l -> In z domain) by (intros z Hz; apply Hl; right; exact Hz).
    destruct (is_positive (compareFn sub x y)) eqn:E.
    + constructor; [apply IH; assumption|].
      apply (Permutation_Forall (sort_insert_Permutation x l)).
      constructor; [|exact Hy].
      destruct (Htotal x y Hx Hyd) as [H|H]; [|exact H].
      unfold not_after in H. congruence.
    + constructor; [constructor; assumption|].
      constructor; [exact E|].
      rewrite List.Forall_forall in Hy |- *. intros z Hz.
      apply (Htrans x y z); auto.
Qed.

Lemma array_sort_sorted (values : list num) :
  consistent values -> StronglySorted ascending (sorted_array values).
Proof.
  intros Hc.
  assert (H : forall l, (forall y, In y l -> In y values) ->
                        StronglySorted ascending (sorted_array l)).
  { induction l as [|x l IH]; intros Hl; cbn; [constructor|].
    apply (sort_insert_sorted values); auto.
    - apply Hl. left. reflexivity.
    - intros y Hy. apply Hl. right.
      apply (Permutation_in _ (Permutation_sym (array_sort_Permutation l))). exact Hy.
    - apply IH. intros y Hy. apply Hl. right. exact Hy. }
  apply H. auto.
Qed.

(** The quartile picked by the script is the first-quartile element, and it
    is never [undefined] on a non-empty array. *)
Lemma getFirstQuartileValue_spec (values : list num) :
  values <> [] -> consistent values ->
  exists q, getFirstQuartileValue sub is_positive values = Some q
            /\ first_quartile_of sub is_positive values q.
Proof.
  intros Hne Hc. unfold getFirstQuartileValue, getFirstQuartile.
  assert (Hlen : length (sorted_array values) = length values)
    by (symmetry; apply Permutation_length, array_sort_Permutation).
  rewrite Hlen.
  destruct (nth_error (sorted_array values) (Nat.div (length values) 4)) as [q|] eqn:E.
  - exists q. split; [reflexivity|]. exists (sorted_array values).
    split; [apply array_sort_Permutation|]. split; [apply array_sort_sorted; exact Hc|].
    exact E.
  - apply nth_error_None in E. rewrite Hlen in E.
    destruct values as [|x values]; [congruence|]. cbn [length] in E.
    pose proof (Nat.Div0.div_le_upper_bound (S (length values)) 4 (S (length values))).
    assert (Nat.div (S (length values)) 4 < S (length values))
      by (apply Nat.div_lt; lia).
    lia.
Qed.

Lemma validate_spec (s : sample (num:=num)) :
  validate s = true <-> ~ In (SCL s) [0; 1; 3; 7; 8; 9; 10]%Z.
Proof.
  unfold validate, invalid. rewrite negb_true_iff.
  split.
  - intros H Hin. apply not_true_iff_false in H. apply H.
    apply existsb_exists. exists (SCL s). split; [exact Hin | apply Z.eqb_refl].
  - intros H. apply not_true_iff_false. intros Hex. apply H.
    apply existsb_exists in Hex as (z & Hz & Heq). apply Z.eqb_eq in Heq. subst. exact Hz.
Qed.

(** C9: a sample is valid when its SCL is none of 0, 1, 3, 7, 8, 9, 10; with
    no valid sample the pixel is -32768 in all four bands; otherwise the
    first three outputs are 10000 times the first-quartile element of the
    valid B04, B03 and B02 values, and the fourth is 10000 times the NDVI of
    the first-quartile B08 and B04 values. *)
Theorem evaluatePixel_first_quartile (samples : list sample) :
  Forall consistent
    [map B08 (List.filter validate samples); map B04 (List.filter validate samples);
     map B03 (List.filter validate samples); map B02 (List.filter validate samples)] ->
  (forall s, In s (List.filter validate samples)
             <-> In s samples /\ ~ In (SCL s) [0; 1; 3; 7; 8; 9; 10]%Z)
  /\ (List.filter validate samples = [] ->
      evaluatePixel add sub mul div of_Z is_positive nan samples
      = [of_Z (-32768); of_Z (-32768); of_Z (-32768); of_Z (-32768)])
  /\ (List.filter validate samples <> [] ->
      exists q08 q04 q03 q02,
        first_quartile_of sub is_positive (map B08 (List.filter validate samples)) q08
        /\ first_quartile_of sub is_positive (map B04 (List.filter validate samples)) q04
        /\ first_quartile_of sub is_positive (map B03 (List.filter validate samples)) q03
        /\ first_quartile_of sub is_positive (map B02 (List.filter validate samples)) q02
        /\ evaluatePixel add sub mul div of_Z is_positive nan samples
           = [mul q04 (of_Z 10000); mul q03 (of_Z 10000); mul q02 (of_Z 10000);
              mul (div (sub q08 q04) (add q08 q04)) (of_Z 10000)]).
Proof.
  intros Hc. split; [|split].
  - intros s. rewrite filter_In, validate_spec. reflexivity.
  - intros Hnil. unfold evaluatePixel. rewrite Hnil. reflexivity.
  - intros Hne. unfold evaluatePixel.
    destruct (List.filter validate samples) as [|s valid] eqn:Ev; [congruence|].
    cbn [length Nat.ltb Nat.leb].
    apply Forall_cons_1 in Hc as [H08 Hc]. apply Forall_cons_1 in Hc as [H04 Hc].
    apply Forall_cons_1 in Hc as [H03 Hc]. apply Forall_cons_1 in Hc as [H02 _].
    destruct (getFirstQuartileValue_spec (map B08 (s :: valid)))
      as (q08 & E08 & Q08); [discriminate | exact H08 |].
    destruct (getFirstQuartileValue_spec (map B04 (s :: valid)))
      as (q04 & E04 & Q04); [discriminate | exact H04 |].
    destruct (getFirstQuartileValue_spec (map B03 (s :: valid)))
      as (q03 & E03 & Q03); [discriminate | exact H03 |].
    destruct (getFirstQuartileValue_spec (map B02 (s :: valid)))
      as (q02 & E02 & Q02); [discriminate | exact H02 |].
    exists q08, q04, q03, q02. rewrite E08, E04, E03, E02.
    repeat (split; [assumption|]). reflexivity.
Qed.

End EvalscriptProperties.

(** ** Forest change *)

Section ForestChangeProperties.
Context {num : Type}.
Variable gt : num -> num -> bool.
Variable threshold : num.


Lemma map_combine_zip_with {A B C} (f : A -> B -> C) (l : list A) (k : list B) :
  map (fun ab => f (fst ab) (snd ab)) (combine l k) = zip_with f l k.
Proof.
  revert k. induction l as [|a l IH]; intros [|b k]; cbn; [reflexivity..|].
  rewrite IH. reflexivity.
Qed.

Lemma zip_with_map_both {A B C} (f : B -> B -> C) (g : A -> B) (l k : list A) :
  zip_with f (map g l) (map g k) = zip_with (fun a b => f (g a) (g b)) l k.
Proof.
  revert k. induction l as [|a l IH]; intros [|b k]; cbn; [reflexivity..|].
  rewrite IH. reflexivity.
Qed.

Lemma zip_with_ext_all {A B C} (f g : A -> B -> C) (l : list A) (k : list B) :
  (forall a b, f a b = g a b) -> zip_with f l k = zip_with g l k.
Proof.
  intros H. revert k. induction l as [|a l IH]; intros [|b k]; cbn; [reflexivity..|].
  rewrite H, IH. reflexivity.
Qed.

Lemma Forall_zip_with_all {A B C} (P : C -> Prop) (f : A -> B -> C)
    (l : list A) (k : list B) :
  (forall a b, P (f a b)) -> Forall P (zip_with f l k).
Proof.
  intros H. revert k. induction l as [|a l IH]; intros [|b k]; cbn; constructor; auto.
Qed.

Lemma slice_sub_astype (later earlier : list (list bool)) :
  slice_sub (map (map (fun b : bool => if b then 1%Z else 0%Z)) later)
            (map (map (fun b : bool => if b then 1%Z else 0%Z)) earlier)
  = zip_with (zip_with forest_change) later earlier.
Proof.
  unfold slice_sub.
  rewrite (map_combine_zip_with
             (fun r1 r2 => map (fun ab => (fst ab - snd ab)%Z) (combine r1 r2))).
  rewrite zip_with_map_both. apply zip_with_ext_all. intros r1 r2.
  rewrite (map_combine_zip_with Z.sub), zip_with_map_both.
  apply zip_with_ext_all. intros [] []; reflexivity.
Qed.

Lemma CHANGE_diff_values (NDVI : DataArray num) :
  values (CHANGE_diff gt threshold NDVI)
  = consecutive_changes (values (FOREST gt threshold NDVI)).
Proof.
  unfold CHANGE_diff, diff_year, astype_int, map_elements, consecutive_changes.
  cbn [values].
  rewrite (map_combine_zip_with slice_sub).
  set (ints := map (map (fun b : bool => if b then 1%Z else 0%Z))).
  replace (tail (map ints (values (FOREST gt threshold NDVI))))
    with (map ints (tail (values (FOREST gt threshold NDVI))))
    by (destruct (values (FOREST gt threshold NDVI)); reflexivity).
  rewrite zip_with_map_both. apply zip_with_ext_all. intros later earlier.
  apply slice_sub_astype.
Qed.

Lemma consecutive_changes_values (mask : list (list (list bool))) :
  Forall (Forall (Forall change_value)) (consecutive_changes mask).
Proof.
  unfold consecutive_changes.
  apply Forall_zip_with_all. intros later earlier.
  apply Forall_zip_with_all. intros r1 r2.
  apply Forall_zip_with_all. intros [] []; unfold change_value; cbn; auto.
Qed.

Lemma sel_year_In {A} (y : Z) (years : list Z) (slices : list (list (list A)))
    (s : list (list A)) :
  sel_year y years slices = Some s -> In s slices.
Proof.
  revert slices. induction years as [|y' years IH]; intros [|s' slices]; cbn;
    try discriminate.
  destruct (Z.eqb y' y); [intros [= <-]; auto | intros H; right; apply IH; exact H].
Qed.

Lemma nth_error_combine_both {A B} (l : list A) (k : list B) (i : nat) :
  nth_error (combine l k) i
  = match nth_error l i, nth_error k i with
    | Some a, Some b => Some (a, b)
    | _, _ => None
    end.
Proof.
  revert k i. induction l as [|a l IH]; intros [|b k] [|i]; cbn; try reflexivity.
  - destruct (nth_error l i); reflexivity.
  - apply IH.
Qed.

Lemma sel_year_nth_error {A} (y : Z) (years : list Z) (slices : list (list (list A)))
    (k : nat) (s : list (list A)) :
  NoDup years -> nth_error years k = Some y -> nth_error slices k = Some s ->
  sel_year y years slices = Some s.
Proof.
  revert slices k. induction years as [|y' years IH]; intros [|s' slices] [|k] Hnd;
    cbn; try discriminate.
  - intros [= ->] [= ->]. rewrite Z.eqb_refl. reflexivity.
  - intros Hy Hs. apply NoDup_cons in Hnd as [Hnotin Hnd].
    destruct (Z.eqb y' y) eqn:E.
    + apply Z.eqb_eq in E. subst y'. exfalso. apply Hnotin.
      apply list_elem_of_In. eapply nth_error_In. exact Hy.
    + eapply IH; eassumption.
Qed.

Lemma sel_year_not_In {A} (y : Z) (years : list Z) (slices : list (list (list A))) :
  ~ In y years -> sel_year y years slices = None.
Proof.
  revert slices. induction years as [|y' years IH]; intros [|s' slices] Hy; cbn;
    try reflexivity.
  destruct (Z.eqb y' y) eqn:E.
  - apply Z.eqb_eq in E. subst y'. exfalso. apply Hy. left. reflexivity.
  - apply IH. intros H. apply Hy. right. exact H.
Qed.

(** With one slice per year and no year twice, the stored variable is the
    difference with a missing slice in front: the first year, which has no
    year before it, holds no value, and every later year holds the change
    from the year before. *)
Lemma CHANGE_stored (NDVI : DataArray num) (y0 : Z) (years : list Z)
    (s0 : list (list num)) (slices : list (list (list num))) :
  year NDVI = y0 :: years -> values NDVI = s0 :: slices ->
  NoDup (y0 :: years) -> length years = length slices ->
  values (CHANGE gt threshold NDVI)
  = map (map (fun _ => None)) s0
    :: map (map (map Some)) (values (CHANGE_diff gt threshold NDVI)).
Proof.
  intros Hy Hv Hnd Hlen. apply NoDup_cons in Hnd as [Hnotin Hnd].
  assert (Hdy : year (CHANGE_diff gt threshold NDVI) = years).
  { unfold CHANGE_diff, diff_year, astype_int, FOREST, map_elements. cbn [year].
    rewrite Hy. reflexivity. }
  assert (Hdl : length (values (CHANGE_diff gt threshold NDVI)) = length years).
  { unfold CHANGE_diff, diff_year, astype_int, FOREST, map_elements. cbn [values].
    rewrite Hv. cbn [map tail].
    rewrite length_map, length_combine. cbn [length]. rewrite !length_map. lia. }
  unfold CHANGE. revert Hdy Hdl.
  generalize (CHANGE_diff gt threshold NDVI). intros d Hdy Hdl.
  rewrite Hy, Hv, Hdy. cbn [values combine map fst snd]. f_equal.
  - rewrite sel_year_not_In; [reflexivity|].
    intros H. apply Hnotin. apply list_elem_of_In. exact H.
  - apply nth_error_ext. intros k. rewrite !nth_error_map.
    destruct (nth_error (combine years slices) k) as [[y s]|] eqn:E; cbn.
    + assert (Hk : k < length (values d)).
      { rewrite Hdl. assert (H : k < length (combine years slices))
          by (apply nth_error_Some; rewrite E; discriminate).
        rewrite length_combine in H. lia. }
      destruct (nth_error (values d) k) as [dv|] eqn:Ed;
        [|apply nth_error_None in Ed; lia].
      assert (Hyk : nth_error years k = Some y).
      { pose proof (nth_error_combine_both years slices k) as H. rewrite E in H.
        destruct (nth_error years k), (nth_error slices k); congruence. }
      rewrite (sel_year_nth_error _ _ _ _ _ Hnd Hyk Ed). reflexivity.
    + apply nth_error_None in E. rewrite length_combine in E.
      destruct (nth_error (values d) k) eqn:Ed; [|reflexivity].
      assert (k < length (values d)) by (apply nth_error_Some; rewrite Ed; discriminate).
      lia.
Qed.

(** C10: the difference of the integer-cast forest mask along the years is,
    pixel by pixel and for each pair of consecutive years, -1 where forest was
    lost, 0 where nothing changed and 1 where forest was gained, and nothing
    else; the variable stored in the dataset holds these values, and a missing
    value where a year has no slice in the difference. *)
Theorem CHANGE_values (NDVI : DataArray num) :
  values (CHANGE_diff gt threshold NDVI)
  = consecutive_changes (values (FOREST gt threshold NDVI))
  /\ Forall (Forall (Forall change_value)) (values (CHANGE_diff gt threshold NDVI))
  /\ Forall (Forall (Forall (fun c => match c with
                                      | Some v => change_value v
                                      | None => True
                                      end)))
            (values (CHANGE gt threshold NDVI)).
Proof.
  split; [apply CHANGE_diff_values|].
  assert (Hd : Forall (Forall (Forall change_value))
                      (values (CHANGE_diff gt threshold NDVI))).
  { rewrite CHANGE_diff_values. apply consecutive_changes_values. }
  split; [exact Hd|].
  unfold CHANGE. cbn [values].
  apply List.Forall_forall. intros slice Hslice.
  apply in_map_iff in Hslice as ([y s0] & <- & _). cbn [fst snd].
  destruct (sel_year y _ _) as [s|] eqn:E.
  - apply sel_year_In in E. rewrite List.Forall_forall in Hd.
    specialize (Hd s E).
    apply List.Forall_forall. intros r Hr.
    apply in_map_iff in Hr as (r0 & <- & Hr0).
    rewrite List.Forall_forall in Hd. specialize (Hd r0 Hr0).
    apply List.Forall_forall. intros c Hc.
    apply in_map_iff in Hc as (v & <- & Hv).
    rewrite List.Forall_forall in Hd. exact (Hd v Hv).
  - apply List.Forall_forall. intros r Hr.
    apply in_map_iff in Hr as (r0 & <- & _).
    apply List.Forall_forall. intros c Hc.
    apply in_map_iff in Hc as (v & <- & _). exact I.
Qed.

End ForestChangeProperties.

(** * Further properties *)

(** ** The cloud-free mosaic evalscript *)

Section MosaicProperties.
Context {num : Type}.
Variables (add sub mul div : num -> num -> num).
Variable of_Z : Z -> num.
Variable is_positive : num -> bool.
Variable nan : num.

Local Abbreviation pixel := (evaluatePixel add sub mul div of_Z is_positive nan).
Local Abbreviation precedes := (not_after sub is_positive).

Lemma filter_validate_twice (samples : list (sample (num:=num))) :
  List.filter validate (List.filter validate samples) = List.filter validate samples.
Proof.
  induction samples as [|s samples IH]; cbn; [reflexivity|].
  destruct (validate s) eqn:E; cbn; rewrite ?E, IH; reflexivity.
Qed.

(** X1: the pixel has as many values as [setup()] declares output bands,
    whatever the samples; the samples that [validate] rejects never reach the
    result: the pixel of the samples is the pixel of the valid ones alone,
    and putting a rejected sample anywhere among them changes nothing. *)
Theorem evaluatePixel_ignores_invalid_samples (samples : list sample) :
  length (pixel samples) = output_bands setup
  /\ pixel samples = pixel (List.filter validate samples)
  /\ (forall before s after,
        validate s = false ->
        pixel (before ++ s :: after) = pixel (before ++ after)).
Proof.
  split; [|split].
  - unfold evaluatePixel. destruct (Nat.ltb 0 _); reflexivity.
  - unfold evaluatePixel. rewrite filter_validate_twice. reflexivity.
  - intros before s after Hs. unfold evaluatePixel.
    rewrite !List.filter_app. cbn [List.filter]. rewrite Hs. reflexivity.
Qed.

Lemma StronglySorted_middle {A} (R : A -> A -> Prop) (l1 : list A) (x : A) (l2 : list A) :
  StronglySorted R (l1 ++ x :: l2) -> Forall (fun y => R y x) l1 /\ Forall (R x) l2.
Proof.
  induction l1 as [|a l1 IH]; cbn; intros Hs.
  - apply StronglySorted_inv in Hs as [_ Hx]. split; [constructor | exact Hx].
  - apply StronglySorted_inv in Hs as [Hs Ha]. destruct (IH Hs) as [H1 H2].
    split; [|exact H2]. constructor; [|exact H1].
    rewrite List.Forall_forall in Ha. apply Ha. apply in_elt.
Qed.

(** X2: on a non-empty array that the comparator orders consistently,
    [getFirstQuartileValue] returns one of the values, the one at rank
    floor(n/4): floor(n/4) of the other values are not after it and it is
    after none of the remaining ones; with fewer than four values it is
    after none of the values, the smallest. *)
Theorem getFirstQuartileValue_rank (values : list num) :
  values <> [] -> consistent_on sub is_positive values ->
  exists q lower upper,
    getFirstQuartileValue sub is_positive values = Some q
    /\ In q values
    /\ quartile_split sub is_positive values q lower upper
    /\ (length values < 4 -> Forall (precedes q) upper /\ lower = []).
Proof.
  intros Hne Hc.
  destruct (getFirstQuartileValue_spec sub is_positive values Hne Hc)
    as (q & Hq & sorted & Hperm & Hsorted & Hnth).
  destruct (nth_error_split sorted _ Hnth) as (lower & upper & Hsplit & Hlen).
  exists q, lower, upper. subst sorted.
  destruct (StronglySorted_middle precedes lower q upper Hsorted) as [Hlow Hup].
  split; [exact Hq|]. split.
  { apply (Permutation_in _ (Permutation_sym Hperm)). apply in_elt. }
  split; [repeat split; assumption|].
  intros Hlt. split; [exact Hup|].
  rewrite (Nat.div_small _ 4 Hlt) in Hlen. destruct lower; [reflexivity | discriminate].
Qed.

(** Two ordered arrangements of the same values are the same list when the
    order tells any two different values apart. *)
Lemma sorted_arrangement_unique (l1 l2 : list num) :
  antisymmetric_on sub is_positive l1 ->
  (forall a, In a l1 -> precedes a a) ->
  StronglySorted precedes l1 -> StronglySorted precedes l2 ->
  Permutation l1 l2 -> l1 = l2.
Proof.
  revert l2. induction l1 as [|a l1 IH]; intros l2 Hanti Hrefl Hs1 Hs2 Hperm.
  - apply Permutation_nil in Hperm. congruence.
  - destruct l2 as [|b l2]; [apply Permutation_sym, Permutation_nil in Hperm; discriminate|].
    apply StronglySorted_inv in Hs1 as [Hs1 Ha].
    apply StronglySorted_inv in Hs2 as [Hs2 Hb].
    rewrite List.Forall_forall in Ha, Hb.
    assert (Hab : a = b).
    { assert (Hbin : In b (a :: l1))
        by (apply (Permutation_in _ (Permutation_sym Hperm)); left; reflexivity).
      assert (Hain : In a (b :: l2))
        by (apply (Permutation_in _ Hperm); left; reflexivity).
      destruct Hbin as [Heq | Hbin]; [exact Heq|].
      destruct Hain as [Heq | Hain]; [congruence|].
      apply Hanti; [left; reflexivity | right; exact Hbin | apply Ha; exact Hbin
                   | apply Hb; exact Hain]. }
    subst b. f_equal. apply Permutation_cons_inv in Hperm.
    apply IH; try assumption.
    + intros x y Hx Hy. apply Hanti; right; assumption.
    + intros x Hx. apply Hrefl. right. exact Hx.
Qed.

Lemma consistent_on_Permutation (l1 l2 : list num) :
  Permutation l1 l2 -> consistent_on sub is_positive l1 -> consistent_on sub is_positive l2.
Proof.
  intros Hperm [Htotal Htrans]. split.
  - intros a b Ha Hb.
    apply Htotal; apply (Permutation_in _ (Permutation_sym Hperm)); assumption.
  - intros a b c Ha Hb Hcc.
    apply Htrans; apply (Permutation_in _ (Permutation_sym Hperm)); assumption.
Qed.

Lemma array_sort_Permutation_eq (l1 l2 : list num) :
  Permutation l1 l2 ->
  consistent_on sub is_positive l1 -> antisymmetric_on sub is_positive l1 ->
  array_sort sub is_positive l1 = array_sort sub is_positive l2.
Proof.
  intros Hperm Hc Hanti.
  pose proof (array_sort_Permutation sub is_positive l1) as P1.
  pose proof (array_sort_Permutation sub is_positive l2) as P2.
  apply sorted_arrangement_unique.
  - intros a b Ha Hb. apply Hanti; apply (Permutation_in _ (Permutation_sym P1)); assumption.
  - intros a Ha. destruct Hc as [Htotal _].
    apply (Permutation_in _ (Permutation_sym P1)) in Ha.
    destruct (Htotal a a Ha Ha); assumption.
  - apply array_sort_sorted. exact Hc.
  - apply array_sort_sorted. apply (consistent_on_Permutation l1); assumption.
  - rewrite <- P1, <- P2. exact Hperm.
Qed.

Lemma filter_Permutation {A} (f : A -> bool) (l1 l2 : list A) :
  Permutation l1 l2 -> Permutation (List.filter f l1) (List.filter f l2).
Proof.
  induction 1 as [|x l1 l2 _ IH|x y l|l1 l2 l3 _ IH1 _ IH2]; cbn.
  - constructor.
  - destruct (f x); [apply perm_skip|]; exact IH.
  - destruct (f x), (f y); try reflexivity. apply perm_swap.
  - etransitivity; eassumption.
Qed.

(** X3: the pixel does not depend on the order in which the acquisitions
    arrive, as long as the comparator orders the valid values of each band
    consistently and tells different values apart. *)
Theorem evaluatePixel_order_of_samples (samples samples' : list sample) :
  Permutation samples samples' ->
  Forall (fun values => consistent_on sub is_positive values
                        /\ antisymmetric_on sub is_positive values)
    [map B08 (List.filter validate samples); map B04 (List.filter validate samples);
     map B03 (List.filter validate samples); map B02 (List.filter validate samples)] ->
  pixel samples = pixel samples'.
Proof.
  intros Hperm Hall.
  apply Forall_cons_1 in Hall as [[C08 A08] Hall].
  apply Forall_cons_1 in Hall as [[C04 A04] Hall].
  apply Forall_cons_1 in Hall as [[C03 A03] Hall].
  apply Forall_cons_1 in Hall as [[C02 A02] _].
  pose proof (filter_Permutation validate _ _ Hperm) as Hvalid.
  unfold evaluatePixel, getFirstQuartileValue, getFirstQuartile.
  rewrite <- (Permutation_length Hvalid).
  rewrite <- (array_sort_Permutation_eq _ _ (Permutation_map B08 Hvalid) C08 A08).
  rewrite <- (array_sort_Permutation_eq _ _ (Permutation_map B04 Hvalid) C04 A04).
  rewrite <- (array_sort_Permutation_eq _ _ (Permutation_map B03 Hvalid) C03 A03).
  rewrite <- (array_sort_Permutation_eq _ _ (Permutation_map B02 Hvalid) C02 A02).
  reflexivity.
Qed.

End MosaicProperties.

(** ** The mean mosaic evalscript *)

Section MeanMosaicProperties.
Context {num : Type}.
Variables (add div : num -> num -> num).
Variable of_Z : Z -> num.

Local Abbreviation mean_pixel := (MeanMosaic.evaluatePixel add div of_Z).

(** X4: the mean mosaic returns the one value its [setup()] declares; an
    acquisition whose [dataMask] is not 1 never enters the mean; a pixel
    without any clear acquisition is 0 divided by 0, and a pixel with a
    single clear acquisition is that acquisition's value added to 0 and
    divided by 1. *)
Theorem mean_mosaic_uses_clear_samples (samples : list MeanMosaic.sample) :
  length (mean_pixel samples) = output_bands MeanMosaic.setup
  /\ (forall before s after,
        MeanMosaic.dataMask s <> 1%Z ->
        mean_pixel (before ++ s :: after) = mean_pixel (before ++ after))
  /\ (List.filter MeanMosaic.isClear samples = [] ->
      mean_pixel samples = [div (of_Z 0) (of_Z 0)])
  /\ (forall s, List.filter MeanMosaic.isClear samples = [s] ->
      mean_pixel samples = [div (add (of_Z 0) (MeanMosaic.NO2 s)) (of_Z 1)]).
Proof.
  split; [reflexivity|]. split; [|split].
  - intros before s after Hs. unfold MeanMosaic.evaluatePixel.
    rewrite !List.filter_app. cbn [List.filter].
    unfold MeanMosaic.isClear at 2 6.
    destruct (Z.eqb (MeanMosaic.dataMask s) 1) eqn:E; [|reflexivity].
    apply Z.eqb_eq in E. contradiction.
  - intros H. unfold MeanMosaic.evaluatePixel. rewrite H. reflexivity.
  - intros s H. unfold MeanMosaic.evaluatePixel. rewrite H. reflexivity.
Qed.

End MeanMosaicProperties.

(** ** Forest area, forest loss and the year of loss *)

Section ForestAccountsProperties.
Context {num : Type}.
Variable gt : num -> num -> bool.
Variable threshold : num.

Local Abbreviation count_row :=
  (fun row : list bool =>
     fold_right Z.add 0%Z (map (fun b : bool => if b then 1%Z else 0%Z) row)).
Local Abbreviation count_slice :=
  (fun slice : list (list bool) => fold_right Z.add 0%Z (map count_row slice)).
Local Abbreviation raster :=
  (fun (h w : nat) (A : Type) (slice : list (list A)) =>
     length slice = h /\ Forall (fun row => length row = w) slice).

Lemma row_account (later earlier : list bool) :
  length later = length earlier ->
  count_row later
  = (count_row earlier
     - count_row (map is_loss (map Some (zip_with forest_change later earlier)))
     + count_row (map is_gain (map Some (zip_with forest_change later earlier))))%Z
  /\ (0 <= count_row (map is_loss (map Some (zip_with forest_change later earlier)))
      <= count_row earlier)%Z
  /\ (0 <= count_row (map is_gain (map Some (zip_with forest_change later earlier))))%Z.
Proof.
  revert earlier. induction later as [|b1 later IH]; intros [|b2 earlier]; cbn;
    try discriminate; [lia|].
  intros [= Hlen]. specialize (IH _ Hlen). cbn in IH.
  destruct b1, b2; cbn; lia.
Qed.

Lemma slice_account (later earlier : list (list bool)) :
  Forall2 (fun r1 r2 => length r1 = length r2) later earlier ->
  count_slice later
  = (count_slice earlier
     - count_slice (map (map is_loss)
                        (map (map Some) (zip_with (zip_with forest_change) later earlier)))
     + count_slice (map (map is_gain)
                        (map (map Some) (zip_with (zip_with forest_change) later earlier))))%Z
  /\ (0 <= count_slice (map (map is_loss)
                            (map (map Some)
                                 (zip_with (zip_with forest_change) later earlier)))
      <= count_slice earlier)%Z
  /\ (0 <= count_slice (map (map is_gain)
                            (map (map Some)
                                 (zip_with (zip_with forest_change) later earlier))))%Z.
Proof.
  induction 1 as [|r1 r2 later earlier Hr _ IH]; cbn; [lia|].
  pose proof (row_account r1 r2 Hr) as Hrow. cbn in Hrow, IH. lia.
Qed.


Lemma count_is_loss_missing {A} (slice : list (list A)) :
  count_slice (map (map is_loss) (map (map (fun _ => None)) slice)) = 0%Z.
Proof.
  induction slice as [|row slice IH]; cbn; [reflexivity|].
  cbn in IH. rewrite IH.
  induction row as [|x row IHrow]; cbn; [reflexivity|]. cbn in IHrow. lia.
Qed.

Lemma well_shaped_inv {A} (a : DataArray A) (h w : nat) :
  well_shaped a h w ->
  (year a = [] /\ values a = [])
  \/ exists y0 years s0 slices,
       year a = y0 :: years /\ values a = s0 :: slices
       /\ NoDup (y0 :: years) /\ length years = length slices
       /\ Forall (raster h w A) (s0 :: slices).
Proof.
  intros (Hnd & Hlen & Hall).
  destruct (year a) as [|y0 years], (values a) as [|s0 slices]; try discriminate.
  - left. split; reflexivity.
  - right. exists y0, years, s0, slices. cbn in Hlen. repeat split; auto; lia.
Qed.

Lemma CHANGE_slices (NDVI : DataArray num) (y0 : Z) (years : list Z)
    (s0 : list (list num)) (slices : list (list (list num))) :
  year NDVI = y0 :: years -> values NDVI = s0 :: slices ->
  NoDup (y0 :: years) -> length years = length slices ->
  values (CHANGE gt threshold NDVI)
  = map (map (fun _ => None)) s0
    :: map (map (map Some))
           (consecutive_changes
              (map (map (map (fun v => gt v threshold))) (s0 :: slices))).
Proof.
  intros Hy Hv Hnd Hlen.
  rewrite (CHANGE_stored gt threshold NDVI y0 years s0 slices Hy Hv Hnd Hlen).
  rewrite CHANGE_diff_values. unfold FOREST, map_elements. cbn [values].
  rewrite Hv. reflexivity.
Qed.

Lemma consecutive_changes_lookup (mask : list (list (list bool))) (k : nat)
    (earlier later : list (list bool)) :
  mask !! k = Some earlier -> mask !! S k = Some later ->
  consecutive_changes mask !! k = Some (zip_with (zip_with forest_change) later earlier).
Proof.
  intros He Hl. unfold consecutive_changes.
  rewrite lookup_zip_with, lookup_tail, Hl, He. reflexivity.
Qed.

Lemma raster_same_rows {A B} (h w : nat) (s1 : list (list A)) (s2 : list (list B)) :
  raster h w A s1 -> raster h w B s2 ->
  Forall2 (fun r1 r2 => length r1 = length r2) s1 s2.
Proof.
  intros [H1 R1] [H2 R2]. subst h. revert s2 H2 R2.
  induction s1 as [|r1 s1 IH]; intros [|r2 s2] H2 R2; try discriminate; constructor.
  - apply Forall_cons_1 in R1 as [-> _]. apply Forall_cons_1 in R2 as [-> _]. reflexivity.
  - apply Forall_cons_1 in R1 as [_ R1]. apply Forall_cons_1 in R2 as [_ R2].
    apply IH; auto.
Qed.

Lemma raster_map {A B} (f : A -> B) (h w : nat) (slice : list (list A)) :
  raster h w A slice -> raster h w B (map (map f) slice).
Proof.
  intros [H R]. split; [rewrite length_map; exact H|].
  apply Forall_fmap. eapply Forall_impl; [exact R|]. intros row Hrow. cbn.
  rewrite length_map. exact Hrow.
Qed.

(** The totals of the years, and the step from each year to the next. *)
Lemma forest_totals (NDVI : DataArray num) (h w : nat) :
  well_shaped NDVI h w ->
  length (forest_pixels gt threshold NDVI) = length (year NDVI)
  /\ length (forest_loss gt threshold NDVI) = length (year NDVI)
  /\ (forall lost, forest_loss gt threshold NDVI !! 0 = Some lost -> lost = 0%Z)
  /\ forall k before after,
       forest_pixels gt threshold NDVI !! k = Some before ->
       forest_pixels gt threshold NDVI !! S k = Some after ->
       exists lost gained,
         forest_loss gt threshold NDVI !! S k = Some lost
         /\ forest_gain gt threshold NDVI !! S k = Some gained
         /\ after = (before - lost + gained)%Z
         /\ (0 <= lost <= before)%Z /\ (0 <= gained)%Z.
Proof.
  intros Hshape.
  unfold forest_pixels, forest_loss, forest_gain, sum_xy, FOREST, map_elements.
  cbn [values].
  destruct (well_shaped_inv _ _ _ Hshape)
    as [[Hy Hv] | (y0 & years & s0 & slices & Hy & Hv & Hnd & Hlen & Hall)].
  { unfold CHANGE. cbn [values]. rewrite Hy, Hv. cbn.
    repeat split; try discriminate. }
  rewrite (CHANGE_slices NDVI y0 years s0 slices Hy Hv Hnd Hlen), Hy, Hv.
  set (F := map (map (map (fun v => gt v threshold))) (s0 :: slices)).
  assert (HF : Forall (raster h w bool) F).
  { apply Forall_fmap. eapply Forall_impl; [exact Hall|].
    intros slice. apply raster_map. }
  assert (HlF : length F = S (length slices))
    by (subst F; cbn [map length]; rewrite length_map; reflexivity).
  split; [rewrite !length_map, HlF; cbn [length]; lia|].
  split.
  { rewrite !length_map. cbn [length]. rewrite !length_map.
    unfold consecutive_changes. rewrite length_zip_with, length_tl, HlF. lia. }
  split.
  { cbn [map]. intros lost [= <-]. apply count_is_loss_missing. }
  intros k before after Hb Ha.
  rewrite list_lookup_fmap in Hb, Ha.
  destruct (F !! k) as [earlier|] eqn:He; [|discriminate].
  destruct (F !! S k) as [later|] eqn:Hl; [|discriminate].
  injection Hb as <-. injection Ha as <-.
  cbn [map]. rewrite !lookup_cons_ne_0 by lia. cbn [Nat.pred].
  rewrite !list_lookup_fmap, (consecutive_changes_lookup F k earlier later He Hl).
  cbn [fmap option_fmap option_map].
  eexists. eexists. split; [reflexivity|]. split; [reflexivity|].
  apply slice_account. rewrite Forall_lookup in HF.
  apply (raster_same_rows h w); eapply HF; eassumption.
Qed.

(** X5: the forest accounts add up.  On a dataset with one raster per year,
    [forest_pixels] and [forest_loss] hold one total per year; the loss of the
    first year, which has no year before it, is 0; and from each year to the
    next the number of forest pixels goes down by the pixels counted in
    [forest_loss] for the later year and up by the pixels that became forest,
    the loss never exceeding the forest of the year before. *)
Theorem forest_accounts (NDVI : DataArray num) (h w : nat) :
  well_shaped NDVI h w ->
  length (forest_pixels gt threshold NDVI) = length (year NDVI)
  /\ length (forest_loss gt threshold NDVI) = length (year NDVI)
  /\ (forall lost, forest_loss gt threshold NDVI !! 0 = Some lost -> lost = 0%Z)
  /\ forall k before after,
       forest_pixels gt threshold NDVI !! k = Some before ->
       forest_pixels gt threshold NDVI !! S k = Some after ->
       exists lost gained,
         forest_loss gt threshold NDVI !! S k = Some lost
         /\ forest_gain gt threshold NDVI !! S k = Some gained
         /\ after = (before - lost + gained)%Z
         /\ (0 <= lost <= before)%Z /\ (0 <= gained)%Z.
Proof. apply forest_totals. Qed.

(** X6: the forest never declines by more than the losses add up to: from
    the first year to any later year, the number of forest pixels goes down
    by at most the sum of [forest_loss] over the years up to that year. *)
Theorem forest_decline_within_losses (NDVI : DataArray num) (h w : nat) :
  well_shaped NDVI h w ->
  forall n first last,
    forest_pixels gt threshold NDVI !! 0 = Some first ->
    forest_pixels gt threshold NDVI !! n = Some last ->
    (first - last
     <= fold_right Z.add 0 (take (S n) (forest_loss gt threshold NDVI)))%Z.
Proof.
  intros Hshape. destruct (forest_totals NDVI h w Hshape) as (_ & _ & Hfirst & Hstep).
  induction n as [|n IH]; intros first last H0 Hn.
  - rewrite H0 in Hn. injection Hn as <-.
    destruct (forest_loss gt threshold NDVI) as [|lost losses]; cbn; [lia|].
    rewrite (Hfirst lost eq_refl). change (take 0 losses) with (@nil Z). cbn. lia.
  - destruct (forest_pixels gt threshold NDVI !! n) as [before|] eqn:Hbefore.
    2: { apply lookup_ge_None in Hbefore. apply lookup_lt_Some in Hn. lia. }
    destruct (Hstep n before last Hbefore Hn) as (lost & gained & Hl & _ & -> & _ & Hg).
    specialize (IH first before H0 eq_refl).
    rewrite (take_S_r _ _ _ Hl), fold_right_app. cbn [fold_right].
    assert (Hsum : forall (l : list Z) (a : Z),
               fold_right Z.add a l = (fold_right Z.add 0 l + a)%Z).
    { induction l as [|x l IHl]; intros a; cbn; [lia|]. rewrite (IHl a). lia. }
    rewrite Hsum. lia.
Qed.


(** *** One pixel along the years *)

Local Abbreviation lost_value :=
  (fun (y : Z) (c : option Z) => (((if is_loss c then 1 else 0) * y) mod 100)%Z).
Local Abbreviation nonzero := (fun v : Z => negb (Z.eqb v 0)).

Lemma argmax_scan_true (best_i i : nat) (l : list bool) :
  argmax_scan true best_i i l = best_i.
Proof.
  revert i. induction l as [|b l IH]; intros i; cbn; [reflexivity | apply IH].
Qed.

(** The scan over the series of one pixel stops at the first loss, where the
    series holds the year of that loss modulo 100. *)
Lemma lost_series (bs : list bool) :
  forall (prev : bool) (years : list Z) (t best_i i : nat),
    length years = length bs ->
    Forall (fun y => (y mod 100)%Z <> 0%Z) years ->
    match first_loss_from prev t bs with
    | Some t' =>
        exists k y,
          t' = t + k /\ years !! k = Some y
          /\ argmax_scan false best_i i
               (map nonzero (zip_with (fun y c => lost_value y (Some c)) years
                                      (zip_with forest_change bs (prev :: bs))))
             = i + k
          /\ zip_with (fun y c => lost_value y (Some c)) years
                      (zip_with forest_change bs (prev :: bs)) !! k
             = Some (y mod 100)%Z
    | None =>
        argmax_scan false best_i i
          (map nonzero (zip_with (fun y c => lost_value y (Some c)) years
                                 (zip_with forest_change bs (prev :: bs))))
        = best_i
    end.
Proof.
  induction bs as [|b bs IH]; intros prev [|y years] t best_i i Hlen Hyears;
    try discriminate; [reflexivity|].
  injection Hlen as Hlen. apply Forall_cons_1 in Hyears as [Hy Hyears].
  cbn [first_loss_from zip_with map].
  destruct prev, b; cbn [andb negb forest_change is_loss Z.eqb].
  - rewrite Z.mul_0_l, Zmod_0_l. cbn [Z.eqb negb argmax_scan andb].
    specialize (IH true years (S t) best_i (S i) Hlen Hyears).
    destruct (first_loss_from true (S t) bs) as [t'|]; [|exact IH].
    destruct IH as (k & y' & -> & Hk & Harg & Hval).
    exists (S k), y'. repeat split;
      [lia | exact Hk | transitivity (S i + k); [exact Harg | lia] | exact Hval].
  - exists 0, y. rewrite Z.mul_1_l.
    assert (Hnz : nonzero (y mod 100)%Z = true)
      by (apply negb_true_iff, Z.eqb_neq; exact Hy).
    cbn [argmax_scan]. rewrite Hnz. cbn [negb andb]. rewrite argmax_scan_true.
    repeat split; [lia | lia].
  - rewrite Z.mul_0_l, Zmod_0_l. cbn [Z.eqb negb argmax_scan andb].
    specialize (IH true years (S t) best_i (S i) Hlen Hyears).
    destruct (first_loss_from true (S t) bs) as [t'|]; [|exact IH].
    destruct IH as (k & y' & -> & Hk & Harg & Hval).
    exists (S k), y'. repeat split;
      [lia | exact Hk | transitivity (S i + k); [exact Harg | lia] | exact Hval].
  - rewrite Z.mul_0_l, Zmod_0_l. cbn [Z.eqb negb argmax_scan andb].
    specialize (IH false years (S t) best_i (S i) Hlen Hyears).
    destruct (first_loss_from false (S t) bs) as [t'|]; [|exact IH].
    destruct IH as (k & y' & -> & Hk & Harg & Hval).
    exists (S k), y'. repeat split;
      [lia | exact Hk | transitivity (S i + k); [exact Harg | lia] | exact Hval].
Qed.


(** *** From the rasters to the series of a pixel *)

Lemma raster_pixel {A} (h w : nat) (slice : list (list A)) (i j : nat) :
  raster h w A slice -> i < h -> j < w ->
  exists row v, slice !! i = Some row /\ row !! j = Some v.
Proof.
  intros [Hh Hw] Hi Hj.
  destruct (slice !! i) as [row|] eqn:Hrow;
    [|apply lookup_ge_None in Hrow; lia].
  assert (Hlen : length row = w).
  { rewrite Forall_lookup in Hw. exact (Hw _ _ Hrow). }
  destruct (row !! j) as [v|] eqn:Hv; [|apply lookup_ge_None in Hv; lia].
  exists row, v. split; [reflexivity | exact Hv].
Qed.

Lemma raster_zip_with {A B C} (f : A -> B -> C) (h w : nat)
    (s1 : list (list A)) (s2 : list (list B)) :
  raster h w A s1 -> raster h w B s2 ->
  raster h w C (zip_with (zip_with f) s1 s2).
Proof.
  intros [H1 R1] [H2 R2]. split; [rewrite length_zip_with; lia|].
  apply Forall_lookup. intros i row Hrow.
  apply lookup_zip_with_Some in Hrow as (r1 & r2 & -> & Hr1 & Hr2).
  rewrite Forall_lookup in R1. rewrite Forall_lookup in R2.
  rewrite length_zip_with, (R1 _ _ Hr1), (R2 _ _ Hr2). lia.
Qed.

Lemma along_axis0_cons {A} (h w : nat) (slice : list (list A))
    (slices : list (list (list A))) (i j : nat) :
  raster h w A slice -> i < h -> j < w ->
  exists row v, slice !! i = Some row /\ row !! j = Some v
                /\ along_axis0 (slice :: slices) i j = v :: along_axis0 slices i j.
Proof.
  intros Hr Hi Hj. destruct (raster_pixel h w slice i j Hr Hi Hj) as (row & v & Hrow & Hv).
  exists row, v. split; [exact Hrow|]. split; [exact Hv|].
  unfold along_axis0. cbn. rewrite Hrow. cbn. rewrite Hv. reflexivity.
Qed.

Lemma along_axis0_map {A B} (f : A -> B) (slices : list (list (list A))) (i j : nat) :
  along_axis0 (map (map (map f)) slices) i j = map f (along_axis0 slices i j).
Proof.
  unfold along_axis0. induction slices as [|slice slices IH]; cbn; [reflexivity|].
  rewrite list_lookup_fmap. destruct (slice !! i) as [row|]; cbn; [|exact IH].
  rewrite list_lookup_fmap. destruct (row !! j) as [v|]; cbn; [|exact IH].
  f_equal. exact IH.
Qed.

Lemma along_axis0_length {A} (h w : nat) (slices : list (list (list A))) (i j : nat) :
  Forall (raster h w A) slices -> i < h -> j < w ->
  length (along_axis0 slices i j) = length slices.
Proof.
  intros Hall Hi Hj. induction Hall as [|slice slices Hr _ IH]; [reflexivity|].
  destruct (along_axis0_cons h w slice slices i j Hr Hi Hj) as (row & v & _ & _ & ->).
  cbn. rewrite IH. reflexivity.
Qed.

Lemma along_axis0_lookup {A} (h w : nat) (slices : list (list (list A))) (i j t : nat) :
  Forall (raster h w A) slices -> i < h -> j < w ->
  (slices !! t ≫= fun slice => slice !! i ≫= fun row => row !! j)
  = along_axis0 slices i j !! t.
Proof.
  intros Hall Hi Hj. revert t. induction Hall as [|slice slices Hr _ IH]; intros t.
  - reflexivity.
  - destruct (along_axis0_cons h w slice slices i j Hr Hi Hj)
      as (row & v & Hrow & Hv & ->).
    destruct t as [|t]; cbn; [rewrite Hrow; cbn; exact Hv | apply IH].
Qed.

Lemma along_axis0_zip_with {A B C} (f : A -> B -> C) (h w : nat)
    (a : list (list (list A))) (b : list (list (list B))) (i j : nat) :
  Forall (raster h w A) a -> Forall (raster h w B) b -> i < h -> j < w ->
  along_axis0 (zip_with (zip_with (zip_with f)) a b) i j
  = zip_with f (along_axis0 a i j) (along_axis0 b i j).
Proof.
  intros Ha Hb Hi Hj. revert b Hb.
  induction Ha as [|s1 a Hr1 _ IH]; intros b Hb; [reflexivity|].
  destruct Hb as [|s2 b Hr2 Hb].
  { destruct (along_axis0 (s1 :: a) i j); reflexivity. }
  destruct (along_axis0_cons h w s1 a i j Hr1 Hi Hj) as (r1 & v1 & Hrow1 & Hv1 & ->).
  destruct (along_axis0_cons h w s2 b i j Hr2 Hi Hj) as (r2 & v2 & Hrow2 & Hv2 & ->).
  cbn [zip_with].
  destruct (along_axis0_cons h w (zip_with (zip_with f) s1 s2)
              (zip_with (zip_with (zip_with f)) a b) i j
              (raster_zip_with f h w s1 s2 Hr1 Hr2) Hi Hj)
    as (r & v & Hrow & Hv & ->).
  rewrite lookup_zip_with, Hrow1, Hrow2 in Hrow. cbn in Hrow. injection Hrow as <-.
  rewrite lookup_zip_with, Hv1, Hv2 in Hv. cbn in Hv. injection Hv as <-.
  f_equal. apply IH. exact Hb.
Qed.

Lemma along_axis0_broadcast {A B} (g : Z -> A -> B) (h w : nat) (years : list Z)
    (slices : list (list (list A))) (i j : nat) :
  Forall (raster h w A) slices -> i < h -> j < w ->
  along_axis0 (map (fun ys => map (map (g (fst ys))) (snd ys)) (combine years slices)) i j
  = zip_with g years (along_axis0 slices i j).
Proof.
  intros Hall Hi Hj. revert years.
  induction Hall as [|slice slices Hr _ IH]; intros [|y years]; try reflexivity.
  destruct (along_axis0_cons h w slice slices i j Hr Hi Hj) as (row & v & Hrow & Hv & ->).
  cbn [combine map fst snd zip_with].
  destruct (along_axis0_cons h w (map (map (g y)) slice)
              (map (fun ys => map (map (g (fst ys))) (snd ys)) (combine years slices))
              i j (raster_map (g y) h w slice Hr) Hi Hj)
    as (r & v' & Hrow' & Hv' & ->).
  rewrite list_lookup_fmap, Hrow in Hrow'. cbn in Hrow'. injection Hrow' as <-.
  rewrite list_lookup_fmap, Hv in Hv'. cbn in Hv'. injection Hv' as <-.
  f_equal. apply IH.
Qed.


(** *** Selecting one year per pixel *)

Lemma all_found_Some {A} (l : list A) : all_found (map Some l) = Some l.
Proof.
  induction l as [|x l IH]; cbn; [reflexivity|]. rewrite IH. reflexivity.
Qed.

Lemma imap_imap {A B C} (f : nat -> B -> C) (g : nat -> A -> B) (l : list A) :
  imap f (imap g l) = imap (fun i x => f i (g i x)) l.
Proof.
  revert f g. induction l as [|x l IH]; intros f g; [reflexivity|].
  rewrite !imap_cons. f_equal. apply IH.
Qed.

Lemma isel_year_positions {A B} (a : list (list (list A))) (s : list (list B))
    (pos : nat -> nat -> B -> nat) (e : nat -> nat -> A) (h w : nat) :
  raster h w B s ->
  (forall i j row b,
      s !! i = Some row -> row !! j = Some b ->
      (a !! pos i j b ≫= fun slice => slice !! i ≫= fun line => line !! j)
      = Some (e i j)) ->
  exists L,
    isel_year a (imap (fun i row => imap (pos i) row) s) = Some L
    /\ raster h w A L
    /\ forall i j, i < h -> j < w ->
         (L !! i ≫= fun row => row !! j) = Some (e i j).
Proof.
  intros [Hh Hw] Hpos.
  exists (imap (fun i row => imap (fun j _ => e i j) row) s). split; [|split].
  - unfold isel_year. rewrite imap_imap.
    rewrite <- (all_found_Some (imap _ s)). f_equal.
    change (map Some ?l) with (Some <$> l). rewrite fmap_imap.
    apply imap_ext. intros i row Hrow. cbn. rewrite imap_imap.
    rewrite <- (all_found_Some (imap _ row)). f_equal.
    change (map Some ?l) with (Some <$> l). rewrite fmap_imap.
    apply imap_ext. intros j b Hb. cbn. apply (Hpos i j row b Hrow Hb).
  - split; [rewrite length_imap; exact Hh|].
    apply Forall_lookup. intros i row' Hrow'.
    apply list_lookup_imap_Some in Hrow' as (row & Hrow & ->).
    rewrite length_imap. rewrite Forall_lookup in Hw. exact (Hw _ _ Hrow).
  - intros i j Hi Hj.
    destruct (raster_pixel h w s i j (conj Hh Hw) Hi Hj) as (row & b & Hrow & Hb).
    rewrite list_lookup_imap, Hrow. cbn. rewrite list_lookup_imap, Hb. reflexivity.
Qed.

(** The year of loss of every pixel, on a dataset with one raster per year
    whose later years are no multiples of 100. *)
Lemma LOST_YEAR_pixels (NDVI : DataArray num) (h w : nat) :
  well_shaped NDVI h w -> year NDVI <> [] ->
  Forall (fun y => (y mod 100)%Z <> 0%Z) (tail (year NDVI)) ->
  exists L,
    LOST_YEAR gt threshold NDVI = Some L
    /\ raster h w Z L
    /\ forall i j, i < h -> j < w ->
         (L !! i ≫= fun row => row !! j)
         = Some (match first_loss
                         (along_axis0 (values (FOREST gt threshold NDVI)) i j) with
                 | Some t => (nth t (year NDVI) 0 mod 100)%Z
                 | None => 0%Z
                 end).
Proof.
  intros Hshape Hne Hyears.
  destruct (well_shaped_inv _ _ _ Hshape)
    as [[Hy _] | (y0 & years & s0 & slices & Hy & Hv & Hnd & Hlen & Hall)];
    [contradiction|].
  unfold LOST_YEAR, first_nonzero, lost_year, FOREST, map_elements. cbn [values year].
  rewrite (CHANGE_slices NDVI y0 years s0 slices Hy Hv Hnd Hlen), Hy, Hv.
  rewrite Hy in Hyears. cbn [tail] in Hyears.
  set (F0 := map (map (fun v => gt v threshold)) s0).
  set (F := map (map (map (fun v => gt v threshold))) slices).
  cbn [map]. fold F0. fold F.
  assert (HF0 : raster h w bool F0).
  { apply raster_map. apply Forall_cons_1 in Hall as [H0 _]. exact H0. }
  assert (HF : Forall (raster h w bool) F).
  { apply Forall_cons_1 in Hall as [_ Hall]. apply Forall_fmap.
    eapply Forall_impl; [exact Hall|]. intros slice. apply raster_map. }
  assert (HCC : Forall (raster h w Z) (consecutive_changes (F0 :: F))).
  { unfold consecutive_changes. cbn [tail]. apply Forall_lookup. intros k c Hc.
    apply lookup_zip_with_Some in Hc as (later & earlier & -> & Hl & He).
    apply raster_zip_with.
    - rewrite Forall_lookup in HF. exact (HF _ _ Hl).
    - assert (HF' : Forall (raster h w bool) (F0 :: F)) by (constructor; assumption).
      rewrite Forall_lookup in HF'. exact (HF' _ _ He). }
  cbn [combine map fst snd argmax_axis0 mbind option_bind].
  set (L0 := map (map (lost_value y0)) (map (map (fun _ : num => None)) s0)).
  set (Lrest := map (fun ys : Z * list (list (option Z)) =>
                       map (map (lost_value (fst ys))) (snd ys))
                    (combine years (map (map (map Some)) (consecutive_changes (F0 :: F))))).
  assert (HL0 : raster h w Z L0).
  { do 2 apply raster_map. apply Forall_cons_1 in Hall as [H0 _]. exact H0. }
  assert (HSome : Forall (raster h w (option Z))
                    (map (map (map Some)) (consecutive_changes (F0 :: F)))).
  { apply Forall_fmap. eapply Forall_impl; [exact HCC|]. intros c. apply raster_map. }
  assert (HLrest : Forall (raster h w Z) Lrest).
  { apply Forall_lookup. intros k c Hc. subst Lrest.
    rewrite list_lookup_fmap in Hc.
    destruct (combine years _ !! k) as [[y c0]|] eqn:E; [|discriminate].
    injection Hc as <-. cbn [fst snd]. apply raster_map.
    apply lookup_zip_Some in E as [_ E].
    rewrite Forall_lookup in HSome. exact (HSome _ _ E). }
  apply (isel_year_positions (L0 :: Lrest) (map (map nonzero) L0)
           (fun i j b => argmax_scan b 0 1
                           (along_axis0 (map (map (map nonzero)) Lrest) i j))
           _ h w (raster_map nonzero h w L0 HL0)).
  intros i j row b Hrow Hb.
  assert (Hi : i < h).
  { apply lookup_lt_Some in Hrow. rewrite length_map in Hrow.
    destruct HL0 as [<- _]. exact Hrow. }
  assert (Hj : j < w).
  { apply lookup_lt_Some in Hb. rewrite list_lookup_fmap in Hrow.
    destruct (L0 !! i) as [row0|] eqn:Hrow0; [|discriminate].
    injection Hrow as <-. rewrite length_map in Hb.
    destruct HL0 as [_ HL0]. rewrite Forall_lookup in HL0.
    rewrite <- (HL0 _ _ Hrow0). exact Hb. }
  assert (Hb0 : b = false /\ along_axis0 (L0 :: Lrest) i j
                             = 0%Z :: along_axis0 Lrest i j).
  { destruct (along_axis0_cons h w L0 Lrest i j HL0 Hi Hj)
      as (row0 & v & Hrow0 & Hv0 & ->).
    subst L0. rewrite !list_lookup_fmap in Hrow0.
    destruct (s0 !! i) as [r|]; [|discriminate]. injection Hrow0 as <-.
    rewrite !list_lookup_fmap in Hv0. destruct (r !! j) as [x|] eqn:Hx; [|discriminate].
    injection Hv0 as <-.
    rewrite !list_lookup_fmap in Hrow.
    destruct (s0 !! i) as [r'|] eqn:Hr'; [|discriminate]. injection Hrow as <-.
    rewrite !list_lookup_fmap in Hb. destruct (r' !! j); [|discriminate].
    injection Hb as <-. split; reflexivity. }
  destruct Hb0 as [-> Hcol].
  rewrite (along_axis0_lookup h w (L0 :: Lrest) i j _
             ltac:(constructor; assumption) Hi Hj), Hcol.
  rewrite along_axis0_map. subst Lrest. cbv beta.
  rewrite (along_axis0_broadcast lost_value h w years _ i j HSome Hi Hj).
  rewrite along_axis0_map.
  change (map Some ?l) with (Some <$> l). rewrite zip_with_fmap_r.
  unfold consecutive_changes. cbn [tail].
  rewrite (along_axis0_zip_with forest_change h w F (F0 :: F) i j HF
             ltac:(constructor; assumption) Hi Hj).
  destruct (along_axis0_cons h w F0 F i j HF0 Hi Hj) as (r0 & b0 & _ & _ & ->).
  cbn [first_loss].
  assert (Hlens : length years = length (along_axis0 F i j)).
  { rewrite (along_axis0_length h w F i j HF Hi Hj). subst F.
    rewrite length_map. exact Hlen. }
  pose proof (lost_series (along_axis0 F i j) b0 years 1 0 1 Hlens Hyears) as Hs.
  destruct (first_loss_from b0 1 (along_axis0 F i j)) as [t'|].
  - destruct Hs as (k & y & -> & Hk & -> & Hval).
    cbn [Nat.add lookup list_lookup nth]. etransitivity; [exact Hval|]. do 2 f_equal.
    symmetry. apply nth_lookup_Some with (d := 0%Z) in Hk. exact Hk.
  - rewrite Hs. reflexivity.
Qed.

(** X7: on a dataset with one raster per year whose later years are no
    multiples of 100, [LOST_YEAR] is a raster of the same shape that holds,
    for each pixel, the last two digits of the first year in which the pixel
    was forest the year before and is forest no more, and 0 for a pixel
    without such a year. *)
Theorem LOST_YEAR_first_loss (NDVI : DataArray num) (h w : nat) :
  well_shaped NDVI h w -> year NDVI <> [] ->
  Forall (fun y => (y mod 100)%Z <> 0%Z) (tail (year NDVI)) ->
  exists L,
    LOST_YEAR gt threshold NDVI = Some L
    /\ length L = h /\ Forall (fun row => length row = w) L
    /\ forall i j, i < h -> j < w ->
         (L !! i ≫= fun row => row !! j)
         = Some (match first_loss
                         (along_axis0 (values (FOREST gt threshold NDVI)) i j) with
                 | Some t => (nth t (year NDVI) 0 mod 100)%Z
                 | None => 0%Z
                 end).
Proof.
  intros Hshape Hne Hyears.
  destruct (LOST_YEAR_pixels NDVI h w Hshape Hne Hyears) as (L & HL & [Hh Hw] & Hpix).
  exists L. repeat split; assumption.
Qed.


Lemma first_loss_from_Some (mask : list bool) (prev : bool) (t t' : nat) :
  first_loss_from prev t mask = Some t' ->
  exists k, t' = t + k /\ (prev :: mask) !! k = Some true /\ mask !! k = Some false.
Proof.
  revert prev t. induction mask as [|b mask IH]; intros prev t; cbn; [discriminate|].
  destruct prev, b; cbn.
  - intros H. destruct (IH _ _ H) as (k & -> & H1 & H2). exists (S k). split; [lia|]. auto.
  - intros [= <-]. exists 0. split; [lia|]. auto.
  - intros H. destruct (IH _ _ H) as (k & -> & H1 & H2). exists (S k). split; [lia|]. auto.
  - intros H. destruct (IH _ _ H) as (k & -> & H1 & H2). exists (S k). split; [lia|]. auto.
Qed.

Lemma first_loss_from_None (mask : list bool) (prev : bool) (t k : nat) :
  first_loss_from prev t mask = None ->
  (prev :: mask) !! k = Some true -> mask !! k = Some false -> False.
Proof.
  revert prev t k. induction mask as [|b mask IH]; intros prev t k; cbn.
  - intros _ _ H. destruct k; discriminate.
  - destruct k as [|k]; cbn.
    + intros H [= ->] [= ->]. discriminate.
    + destruct (prev && negb b); [discriminate|]. apply IH.
Qed.

(** X8: on a dataset with one raster per year whose later years all end in
    more than 18, the mask [LOST_YEAR > 18] that is scored against the
    reference marks exactly the pixels that were forest in some year and
    forest no more in the year after. *)
Theorem LOST_YEAR_mask_marks_losses (NDVI : DataArray num) (h w : nat) :
  well_shaped NDVI h w -> year NDVI <> [] ->
  Forall (fun y => (18 < y mod 100)%Z) (tail (year NDVI)) ->
  exists M,
    LOST_YEAR_mask gt threshold NDVI = Some M
    /\ forall i j, i < h -> j < w ->
         exists marked,
           (M !! i ≫= fun row => row !! j) = Some marked
           /\ (marked = true
               <-> exists t,
                     along_axis0 (values (FOREST gt threshold NDVI)) i j !! t = Some true
                     /\ along_axis0 (values (FOREST gt threshold NDVI)) i j !! S t
                        = Some false).
Proof.
  intros Hshape Hne Hyears.
  assert (Hyears' : Forall (fun y => (y mod 100)%Z <> 0%Z) (tail (year NDVI)))
    by (eapply Forall_impl; [exact Hyears|]; cbn; intros y Hy; lia).
  destruct (LOST_YEAR_pixels NDVI h w Hshape Hne Hyears') as (L & HL & _ & Hpix).
  unfold LOST_YEAR_mask. rewrite HL. cbn [fmap option_fmap option_map].
  eexists. split; [reflexivity|]. intros i j Hi Hj.
  specialize (Hpix i j Hi Hj). rewrite list_lookup_fmap.
  destruct (L !! i) as [row|]; [|discriminate].
  cbn [mbind option_bind fmap option_fmap option_map] in Hpix |- *.
  rewrite list_lookup_fmap, Hpix. cbn [fmap option_fmap option_map].
  eexists. split; [reflexivity|].
  assert (Hlen : length (along_axis0 (values (FOREST gt threshold NDVI)) i j)
                 = length (year NDVI)).
  { destruct Hshape as (_ & Hlen & Hall). unfold FOREST, map_elements. cbn [values].
    rewrite (along_axis0_length h w); [rewrite length_map; lia | | exact Hi | exact Hj].
    apply Forall_fmap. eapply Forall_impl; [exact Hall|]. intros slice. apply raster_map. }
  destruct (along_axis0 (values (FOREST gt threshold NDVI)) i j) as [|b0 bs].
  { cbn. split; [discriminate|]. intros (t & H & _). destruct t; discriminate. }
  cbn [first_loss].
  destruct (first_loss_from b0 1 bs) as [t'|] eqn:Hfirst.
  - destruct (first_loss_from_Some _ _ _ _ Hfirst) as (k & -> & H1 & H2).
    split; [intros _; exists k; auto|]. intros _.
    destruct (year NDVI) as [|y0 years]; [contradiction|]. cbn [tail] in Hyears.
    cbn [Nat.add nth].
    assert (Hk : k < length years).
    { apply lookup_lt_Some in H2. cbn [length] in Hlen. lia. }
    destruct (years !! k) as [y|] eqn:Hy; [|apply lookup_ge_None in Hy; lia].
    rewrite (nth_lookup_Some _ _ 0%Z _ Hy).
    rewrite Forall_lookup in Hyears. apply Z.ltb_lt. exact (Hyears _ _ Hy).
  - split; [discriminate|]. intros (t & H1 & H2). exfalso.
    exact (first_loss_from_None _ _ _ _ Hfirst H1 H2).
Qed.

End ForestAccountsProperties.

(** ** The edges of the normalisation cell *)

Section CellEdgeProperties.
Context {num : Type}.
Variable parse_number : string -> option num.
Variable month_of : cell num -> option (cell num).

(** Frames made from responses without time buckets carry no label but the
    tag. *)
Lemma empty_units_labels (pollution_stats : list (response num)) (names : list string) :
  Forall (fun stats => data stats = []) pollution_stats ->
  forall labels k,
    In labels (map columns (add_names (normalize_each pollution_stats) names)) ->
    In k labels -> k = "name".
Proof.
  intros Hall. revert names.
  induction Hall as [|stats pollution_stats Hstats _ IH]; intros names labels k;
    cbn [normalize_each map add_names].
  - destruct names; intros [].
  - rewrite Hstats. cbn [json_normalize].
    destruct names as [|capital names]; cbn [add_names map].
    + intros [<- | Hin]; [intros [] | ].
      rewrite <- (add_names_nil (map _ pollution_stats)) in Hin.
      exact (IH [] labels k Hin).
    + intros [<- | Hin]; [intros [<- | []]; reflexivity | exact (IH names labels k Hin)].
Qed.

(** X9: when the service answers every request with an empty list of time
    buckets, the cell writes no table: the frames hold at most the ["name"]
    column, and reading the ["from"] column raises [KeyError]. *)
Theorem normalization_without_buckets (pollution_stats : list (response num))
    (names : list string) :
  pollution_stats <> [] ->
  Forall (fun stats => data stats = []) pollution_stats ->
  normalization parse_number month_of pollution_stats names = Raise (KeyError "from").
Proof.
  intros Hne Hall. unfold normalization.
  destruct (flatten_tag_concat_rows pollution_stats names Hne) as (T0 & H0 & Hcols & _).
  rewrite H0. cbn [bind]. unfold simplify_names, rename_columns.
  rewrite mapM_last_segment_segment. cbn [bind]. unfold add_month, month_series.
  cbn [columns coerce_stats apply_columns].
  assert (Hnone : count_occ string_dec (map segment (columns T0)) "from" = 0).
  { apply count_occ_not_In. intros Hin. apply in_map_iff in Hin as (c & Hseg & Hc).
    rewrite Hcols in Hc. apply In_union_labels in Hc as (labels & Hlabels & Hk).
    rewrite (empty_units_labels _ _ Hall labels c Hlabels Hk) in Hseg.
    vm_compute in Hseg. discriminate Hseg. }
  rewrite Hnone. reflexivity.
Qed.

Lemma cells_labelled_absent (key : string) (labels : list string) (row : list (cell num)) :
  count_occ string_dec labels key = 0 -> cells_labelled key labels row = [].
Proof.
  revert row. induction labels as [|c labels IH]; intros [|x row]; cbn; try reflexivity.
  destruct (string_dec c key) as [->|Hne]; [discriminate|].
  apply String.eqb_neq in Hne. rewrite Hne. apply IH.
Qed.

Lemma cells_labelled_single (key : string) (labels : list string) (row : list (cell num)) :
  count_occ string_dec labels key = 1 -> length row = length labels ->
  cells_labelled key labels row = [cell_at labels row key].
Proof.
  unfold cell_at. revert row.
  induction labels as [|c labels IH]; intros [|x row]; cbn; try discriminate.
  destruct (string_dec c key) as [->|Hne].
  - intros [= Hcount] _. rewrite String.eqb_refl. cbn.
    rewrite (cells_labelled_absent _ _ _ Hcount). reflexivity.
  - intros Hcount [= Hlen]. apply String.eqb_neq in Hne. rewrite Hne.
    rewrite (IH row Hcount Hlen).
    destruct (label_index key labels); reflexivity.
Qed.

Lemma label_index_In (c : string) (labels : list string) :
  In c labels -> exists i, label_index c labels = Some i /\ i < length labels.
Proof.
  intros Hin. destruct (label_index c labels) as [i|] eqn:E.
  - exists i. split; [reflexivity|].
    apply label_index_Some in E. apply nth_error_Some. rewrite E. discriminate.
  - apply label_index_None in E. contradiction.
Qed.

Lemma label_index_app (c : string) (labels more : list string) :
  label_index c (labels ++ more)
  = match label_index c labels with
    | Some i => Some i
    | None => option_map (Nat.add (length labels)) (label_index c more)
    end.
Proof.
  induction labels as [|c' labels IH]; cbn.
  - destruct (label_index c more); reflexivity.
  - destruct (String.eqb c' c); [reflexivity|]. rewrite IH.
    destruct (label_index c labels); [reflexivity|].
    destruct (label_index c more); reflexivity.
Qed.

Lemma mapM_Ok_Forall2 {A B} (f : A -> result B) (l : list A) (ys : list B) :
  mapM f l = Ok ys -> Forall2 (fun x y => f x = Ok y) l ys.
Proof.
  revert ys. induction l as [|x l IH]; intros ys; cbn.
  - intros [= <-]. constructor.
  - destruct (f x) as [y|e] eqn:E; cbn; [|discriminate].
    destruct (mapM f l) as [ys'|e]; cbn; [|discriminate].
    intros [= <-]. constructor; [exact E | apply IH; reflexivity].
Qed.

(** The month set in a row is the month of the row's own ["from"] cell. *)
Lemma setitem_month_row (labels : list string) (row : list (cell num)) (m : cell num)
    (row' : list (cell num)) (labels' : list string) :
  count_occ string_dec labels "from" = 1 -> length row = length labels ->
  (if existsb (String.eqb "month") labels
   then labels' = labels
        /\ row' = map_labelled (fun c x => if String.eqb c "month" then m else x) labels row
   else labels' = labels ++ ["month"] /\ row' = row ++ [m]) ->
  cell_at labels' row' "from" = cell_at labels row "from"
  /\ cell_at labels' row' "month" = m.
Proof.
  intros Hcount Hlen Hcase.
  assert (Hfrom : In "from" labels) by (apply (count_occ_In string_dec); lia).
  destruct (label_index_In _ _ Hfrom) as (i & Hi & Hlt).
  assert (Hx : nth_error row i = Some (nth i row NaN))
    by (apply nth_error_nth'; lia).
  unfold cell_at.
  destruct (existsb (String.eqb "month") labels) eqn:Hmonth.
  - destruct Hcase as [-> ->]. rewrite Hi.
    apply existsb_eqb_In in Hmonth.
    destruct (label_index_In _ _ Hmonth) as (im & Him & Hltm). rewrite Him.
    assert (Hxm : nth_error row im = Some (nth im row NaN))
      by (apply nth_error_nth'; lia).
    split; apply nth_error_nth.
    + rewrite (map_labelled_nth_error _ _ _ _ _ _ (label_index_Some _ _ _ Hi) Hx).
      reflexivity.
    + rewrite (map_labelled_nth_error _ _ _ _ _ _ (label_index_Some _ _ _ Him) Hxm).
      reflexivity.
  - destruct Hcase as [-> ->]. rewrite !label_index_app, Hi.
    apply existsb_eqb_not_In in Hmonth.
    destruct (label_index "month" labels) as [im|] eqn:Him.
    { apply label_index_Some, nth_error_In in Him. contradiction. }
    cbn. split.
    + apply app_nth1. lia.
    + rewrite Nat.add_0_r, <- Hlen. apply nth_middle.
Qed.

(** X10: in the table that the cell writes exactly one column is labelled
    ["from"], a column is labelled ["month"], and every row reads under
    ["month"] the month of the timestamp it reads under ["from"]. *)
Theorem month_of_interval_start (pollution_stats : list (response num))
    (names : list string) (T : DataFrame num) :
  normalization parse_number month_of pollution_stats names = Ok T ->
  count_occ string_dec (columns T) "from" = 1
  /\ In "month" (columns T)
  /\ Forall (fun row => month_of (cell_at (columns T) row "from")
                        = Some (cell_at (columns T) row "month"))
            (rows T).
Proof.
  unfold normalization.
  destruct (flatten_tag_concat pollution_stats names) as [T0|e] eqn:H0; cbn [bind];
    [|discriminate].
  pose proof (flatten_tag_concat_well_formed _ _ _ H0) as Hwf.
  unfold simplify_names, rename_columns.
  rewrite mapM_last_segment_segment. cbn [bind]. unfold add_month, month_series.
  cbn [columns rows coerce_stats apply_columns].
  set (labels := map segment (columns T0)).
  set (rows1 := map (map_labelled _ (columns T0)) (rows T0)).
  assert (Hwf1 : Forall (fun row => length row = length labels) rows1).
  { subst rows1 labels. apply Forall_fmap. unfold well_formed in Hwf.
    eapply Forall_impl; [exact Hwf|]. intros row Hrow. cbn.
    rewrite map_labelled_length, length_map. exact Hrow. }
  destruct (count_occ string_dec labels "from") as [|[|n]] eqn:Hcount; cbn [bind];
    [discriminate| |].
  2: { destruct (mapM _ _); cbn [bind]; discriminate. }
  destruct (mapM _ _) as [months|e] eqn:HM; cbn [bind]; [|discriminate].
  intros [= <-]. apply mapM_Ok_Forall2 in HM.
  assert (Hpairs : Forall (fun rv => length (fst rv) = length labels
                                     /\ month_of (cell_at labels (fst rv) "from")
                                        = Some (snd rv))
                     (combine rows1 (map (fun ms => nth 0 ms NaN) months))).
  { clearbody rows1. revert months Hwf1 HM.
    induction rows1 as [|row rows1 IH]; intros [|ms months] Hwf1 HM; cbn;
      try apply List.Forall_nil.
    apply Forall_cons_1 in Hwf1 as [Hlen Hwf1]. apply Forall2_cons_1 in HM as [Hms HM].
    apply List.Forall_cons; [|exact (IH months Hwf1 HM)]. cbn [fst snd].
    split; [exact Hlen|].
    rewrite (cells_labelled_single _ _ _ Hcount Hlen) in Hms. cbn in Hms.
    destruct (month_of (cell_at labels row "from")) as [m|]; cbn in Hms; [|discriminate].
    injection Hms as <-. reflexivity. }
  unfold setitem_column. cbn [columns rows].
  destruct (existsb (String.eqb "month") labels) eqn:Hmonth; cbn [columns rows].
  - split; [exact Hcount|]. split; [apply existsb_eqb_In; exact Hmonth|].
    apply Forall_fmap. eapply Forall_impl; [exact Hpairs|].
    intros [row m] [Hlen Hm]. cbn [fst snd] in *. cbn.
    destruct (setitem_month_row labels row m
                (map_labelled (fun c x => if String.eqb c "month" then m else x) labels row)
                labels Hcount Hlen) as [Hf Hmo].
    { rewrite Hmonth. split; reflexivity. }
    rewrite Hf, Hmo. exact Hm.
  - split.
    { rewrite count_occ_app, Hcount. reflexivity. }
    split; [apply in_or_app; right; left; reflexivity|].
    apply Forall_fmap. eapply Forall_impl; [exact Hpairs|].
    intros [row m] [Hlen Hm]. cbn [fst snd] in *. cbn.
    destruct (setitem_month_row labels row m (row ++ [m]) (labels ++ ["month"])
                Hcount Hlen) as [Hf Hmo].
    { rewrite Hmonth. split; reflexivity. }
    rewrite Hf, Hmo. exact Hm.
Qed.

End CellEdgeProperties.

(** ** Files named after their year *)

Lemma append_cons (c : ascii) (s t : string) : String c s +:+ t = String c (s +:+ t).
Proof. reflexivity. Qed.

Lemma every_char_app (p : ascii -> bool) (s t : string) :
  every_char p (s +:+ t) = every_char p s && every_char p t.
Proof.
  induction s as [|c s IH]; [reflexivity|].
  rewrite append_cons. cbn. rewrite IH, andb_assoc. reflexivity.
Qed.

Lemma every_char_impl (p q : ascii -> bool) (s : string) :
  (forall c, p c = true -> q c = true) -> every_char p s = true -> every_char q s = true.
Proof.
  intros Hpq. induction s as [|c s IH]; cbn; [reflexivity|].
  intros H. apply andb_true_iff in H as [Hc Hs]. rewrite (Hpq c Hc), (IH Hs). reflexivity.
Qed.

Lemma string_of_uint_digits (d : Decimal.uint) :
  every_char is_digit (NilEmpty.string_of_uint d) = true.
Proof. induction d; cbn; auto. Qed.

Lemma is_digit_cases (c : ascii) :
  is_digit c = true ->
  isspace c = false /\ Ascii.eqb c "-" = false /\ Ascii.eqb c "+" = false
  /\ Ascii.eqb c "/" = false /\ Ascii.eqb c "." = false.
Proof.
  destruct c as [[] [] [] [] [] [] [] []]; cbn; intros H; try discriminate H;
    repeat split; reflexivity.
Qed.

Lemma lstrip_head (c : ascii) (s : string) :
  isspace c = false -> lstrip (String c s) = String c s.
Proof. intros H. cbn. rewrite H. reflexivity. Qed.

Lemma rstrip_every (s : string) :
  every_char (fun c => negb (isspace c)) s = true -> rstrip s = s.
Proof.
  induction s as [|c s IH]; cbn; [reflexivity|].
  intros H. apply andb_true_iff in H as [Hc Hs]. rewrite (IH Hs).
  apply negb_true_iff in Hc. rewrite Hc. destruct s; reflexivity.
Qed.

Ltac read_digit :=
  match goal with
  | |- context [digit_value ?c] =>
      let v := eval vm_compute in (digit_value c) in
      change (digit_value c) with v; cbv iota beta
  end.

(** The digits of a number are read back as that number, digit by digit. *)
Lemma parse_digits_acc (d : Decimal.uint) :
  forall (p : positive) (count : nat),
    parse_digits (Z.pos p) count true (NilEmpty.string_of_uint d)
    = Some (Z.pos (Pos.of_uint_acc d p),
            count + String.length (NilEmpty.string_of_uint d)).
Proof.
  induction d; intros p count;
    cbn [NilEmpty.string_of_uint parse_digits Pos.of_uint_acc String.length];
    [f_equal; f_equal; lia|..];
    read_digit;
    match goal with
    | |- parse_digits ?acc _ _ _ = Some (Z.pos (Pos.of_uint_acc _ ?q), _) =>
        replace acc with (Z.pos q) by lia
    end;
    rewrite IHd; f_equal; f_equal; lia.
Qed.

Lemma parse_digits_zero (d : Decimal.uint) :
  forall (count : nat) (after_digit : bool),
    d <> Decimal.Nil \/ after_digit = true ->
    parse_digits 0 count after_digit (NilEmpty.string_of_uint d)
    = Some (Z.of_N (Pos.of_uint d), count + String.length (NilEmpty.string_of_uint d)).
Proof.
  induction d; intros count after_digit Hd;
    cbn [NilEmpty.string_of_uint parse_digits Pos.of_uint String.length].
  1: { destruct Hd as [Hd | ->]; [contradiction|]. cbn. f_equal. f_equal. lia. }
  1: { read_digit. change (10 * 0 + 0)%Z with 0%Z. rewrite IHd by (right; reflexivity).
       f_equal. f_equal. lia. }
  all: read_digit;
    match goal with
    | |- parse_digits ?acc _ _ _ = _ =>
        let v := eval vm_compute in acc in change acc with v
    end;
    rewrite parse_digits_acc; f_equal; f_equal; lia.
Qed.

(** [int] reads back what [str] wrote. *)
Lemma int_of_str_str_of_int (n : Z) (s : string) :
  str_of_int n = Some s -> int_of_str s = Some n.
Proof.
  unfold str_of_int.
  destruct (Nat.leb _ int_max_str_digits) eqn:Hlimit; [|discriminate]. intros [= <-].
  destruct n as [|p|p]; [reflexivity| |].
  - cbn [Z.to_int NilZero.string_of_int Z.ltb Z.compare] in *.
    pose proof (Unsigned.to_uint_nonnil p) as Hnil.
    pose proof (Unsigned.of_to p) as Hback.
    pose proof (string_of_uint_digits (Pos.to_uint p)) as Hdigits.
    pose proof (parse_digits_zero (Pos.to_uint p) 0 false (or_introl Hnil)) as Hparse.
    replace (NilZero.string_of_uint (Pos.to_uint p))
      with (NilEmpty.string_of_uint (Pos.to_uint p)) in *
      by (destruct (Pos.to_uint p); [contradiction | reflexivity..]).
    destruct (NilEmpty.string_of_uint (Pos.to_uint p)) as [|c ds] eqn:Hs.
    { destruct (Pos.to_uint p); [contradiction | discriminate..]. }
    assert (Hc : is_digit c = true) by (cbn in Hdigits; apply andb_true_iff in Hdigits; tauto).
    destruct (is_digit_cases c Hc) as (Hspace & Hminus & Hplus & _).
    unfold int_of_str. rewrite (lstrip_head c ds Hspace).
    rewrite rstrip_every
      by (eapply every_char_impl; [|exact Hdigits]; intros c' Hc';
          destruct (is_digit_cases c' Hc') as [-> _]; reflexivity).
    rewrite Hminus, Hplus. cbn [fst snd]. rewrite Hparse. cbn [Nat.add].
    rewrite Hlimit, Hback. reflexivity.
  - cbn [Z.to_int NilZero.string_of_int Z.ltb Z.compare String.length] in *.
    pose proof (Unsigned.to_uint_nonnil p) as Hnil.
    pose proof (Unsigned.of_to p) as Hback.
    pose proof (string_of_uint_digits (Pos.to_uint p)) as Hdigits.
    pose proof (parse_digits_zero (Pos.to_uint p) 0 false (or_introl Hnil)) as Hparse.
    replace (NilZero.string_of_uint (Pos.to_uint p))
      with (NilEmpty.string_of_uint (Pos.to_uint p)) in *
      by (destruct (Pos.to_uint p); [contradiction | reflexivity..]).
    replace (S (String.length (NilEmpty.string_of_uint (Pos.to_uint p))) - 1)
      with (String.length (NilEmpty.string_of_uint (Pos.to_uint p))) in Hlimit by lia.
    unfold int_of_str. rewrite lstrip_head by reflexivity.
    rewrite rstrip_every.
    2: { cbn [every_char]. apply andb_true_iff. split; [reflexivity|].
         eapply every_char_impl; [|exact Hdigits]. intros c' Hc'.
         destruct (is_digit_cases c' Hc') as [-> _]. reflexivity. }
    change (Ascii.eqb "-" "-") with true. cbn [fst snd]. rewrite Hparse. cbn [Nat.add].
    rewrite Hlimit, Hback. reflexivity.
Qed.

Lemma str_of_int_chars (n : Z) (s : string) :
  str_of_int n = Some s ->
  s <> ""
  /\ every_char (fun c => negb (Ascii.eqb c "/")) s = true.
Proof.
  unfold str_of_int. destruct (Nat.leb _ _); [|discriminate]. intros [= <-].
  assert (H : forall d, d <> Decimal.Nil ->
                NilZero.string_of_uint d <> ""
                /\ every_char (fun c => negb (Ascii.eqb c "/")) (NilZero.string_of_uint d)
                   = true).
  { intros d Hd.
    replace (NilZero.string_of_uint d) with (NilEmpty.string_of_uint d)
      by (destruct d; [contradiction | reflexivity..]).
    split; [destruct d; [contradiction | discriminate..]|].
    eapply every_char_impl; [|apply string_of_uint_digits]. intros c Hc.
    destruct (is_digit_cases c Hc) as (_ & _ & _ & -> & _). reflexivity. }
  destruct n as [|p|p]; cbn [Z.to_int NilZero.string_of_int].
  - split; [discriminate | reflexivity].
  - apply H, Unsigned.to_uint_nonnil.
  - destruct (H _ (Unsigned.to_uint_nonnil p)) as [_ Hall].
    split; [discriminate|]. cbn [every_char]. rewrite Hall. reflexivity.
Qed.

Lemma str_split_nonempty (sep : ascii) (s : string) : str_split sep s <> [].
Proof.
  destruct s as [|c s]; cbn; [discriminate|].
  destruct (Ascii.eqb c sep); [discriminate|]. destruct (str_split sep s); discriminate.
Qed.

Lemma str_split_app (sep : ascii) (a b : string) :
  str_split sep (a +:+ String sep b) = str_split sep a ++ str_split sep b.
Proof.
  induction a as [|c a IH].
  - change ("" +:+ String sep b) with (String sep b). cbn.
    rewrite Ascii.eqb_refl. reflexivity.
  - rewrite append_cons. cbn. rewrite IH.
    destruct (Ascii.eqb c sep); [reflexivity|].
    pose proof (str_split_nonempty sep a) as Hne.
    destruct (str_split sep a); [contradiction | reflexivity].
Qed.

Lemma str_split_whole (sep : ascii) (s : string) :
  every_char (fun c => negb (Ascii.eqb c sep)) s = true -> str_split sep s = [s].
Proof.
  induction s as [|c s IH]; cbn; [reflexivity|].
  intros H. apply andb_true_iff in H as [Hc Hs]. apply negb_true_iff in Hc.
  rewrite Hc, (IH Hs). reflexivity.
Qed.

Lemma path_name_file (dir file : string) :
  every_char (fun c => negb (Ascii.eqb c "/")) file = true ->
  file <> "" -> file <> "." ->
  path_name (dir +:+ String "/" file) = file.
Proof.
  intros Hchars Hne Hdot. unfold path_name.
  rewrite str_split_app, (str_split_whole _ _ Hchars), List.filter_app.
  cbn [List.filter]. apply String.eqb_neq in Hne, Hdot. rewrite Hne, Hdot. cbn [negb andb].
  apply List.last_last.
Qed.

Lemma rfind_dot_tif (a : string) : rfind "." (a +:+ ".tif") = Some (String.length a).
Proof.
  induction a as [|c a IH]; [reflexivity|].
  rewrite append_cons. cbn. rewrite IH. reflexivity.
Qed.

Lemma substring_prefix (a b : string) :
  String.substring 0 (String.length a) (a +:+ b) = a.
Proof.
  induction a as [|c a IH].
  - destruct b; reflexivity.
  - rewrite append_cons. cbn. rewrite IH. reflexivity.
Qed.

Lemma length_append (a b : string) :
  String.length (a +:+ b) = String.length a + String.length b.
Proof.
  induction a as [|c a IH]; [reflexivity|]. rewrite append_cons. cbn. rewrite IH. reflexivity.
Qed.

Lemma path_stem_tif (dir a : string) :
  every_char (fun c => negb (Ascii.eqb c "/")) a = true -> a <> "" ->
  path_stem (dir +:+ String "/" (a +:+ ".tif")) = a.
Proof.
  intros Hchars Hne. unfold path_stem.
  assert (Hlen : 0 < String.length a) by (destruct a; [contradiction | cbn; lia]).
  rewrite path_name_file.
  - rewrite rfind_dot_tif, length_append. cbn [String.length].
    replace (0 <? String.length a)%nat with true by (symmetry; apply Nat.ltb_lt; lia).
    replace (String.length a <? String.length a + 4 - 1)%nat with true
      by (symmetry; apply Nat.ltb_lt; lia).
    apply substring_prefix.
  - rewrite every_char_app, Hchars. reflexivity.
  - destruct a; [contradiction | discriminate].
  - destruct a as [|c [|c' a]]; [contradiction | discriminate..].
Qed.

(** The year of a raster opened from the file that the rename loop names
    after that year, in whatever directory the file is found. *)
Lemma add_time_dim_year {A} (year : Z) (s dir : string) (xda : list (list A)) :
  str_of_int year = Some s ->
  add_time_dim (dir +:+ String "/" (s +:+ ".tif")) xda
  = Some {| year := [year]; values := [xda] |}.
Proof.
  intros Hs. destruct (str_of_int_chars year s Hs) as [Hne Hchars].
  unfold add_time_dim.
  rewrite (path_stem_tif dir s Hchars Hne), (int_of_str_str_of_int year s Hs).
  reflexivity.
Qed.

(** X11: the file that the rename loop names after a year is read back by
    [add_time_dim] as a raster of that year, in whatever directory the file
    is found, and two years never get the same file name. *)
Theorem year_read_back_from_file_name {A} (year : Z) (file : string)
    (xda : list (list A)) :
  year_file year = Some file ->
  add_time_dim file xda = Some {| year := [year]; values := [xda] |}
  /\ (exists s, str_of_int year = Some s
                /\ forall dir, add_time_dim (dir +:+ "/" +:+ s +:+ ".tif") xda
                               = Some {| year := [year]; values := [xda] |})
  /\ (forall year', year_file year' = Some file -> year' = year).
Proof.
  unfold year_file. intros Hfile.
  destruct (str_of_int year) as [s|] eqn:Hs; [|discriminate]. injection Hfile as <-.
  split; [exact (add_time_dim_year year s "./data" xda Hs)|]. split.
  - exists s. split; [reflexivity|]. intros dir.
    exact (add_time_dim_year year s dir xda Hs).
  - intros year' Hfile'.
    destruct (str_of_int year') as [s'|] eqn:Hs'; [|discriminate].
    cbn [fmap option_fmap option_map] in Hfile'.
    pose proof (add_time_dim_year year' s' "./data" xda Hs') as H'.
    pose proof (add_time_dim_year year s "./data" xda Hs) as H.
    assert (Heq : "./data" +:+ String "/" (s' +:+ ".tif")
                  = "./data" +:+ String "/" (s +:+ ".tif"))
      by (apply (f_equal (default "")) in Hfile'; exact Hfile').
    rewrite Heq, H in H'. congruence.
Qed.

(** ** From the capitals to the table *)

Section PipelineProperties.
Context {shape request num : Type}.
Variable buffer : shape -> shape.
Variable statistical_request : shape -> request.
Variable fetch : request -> option (response num).

Lemma all_Some_values {A} (l : list (option A)) :
  Forall is_Some l -> exists values, l = Some <$> values.
Proof.
  induction 1 as [|o l [a ->] _ (values & ->)].
  - exists []. reflexivity.
  - exists (a :: values). reflexivity.
Qed.

Lemma fetched_in_order {A} (f : A -> option (response num)) (l : list A)
    (stats : list (response num)) :
  f <$> l = Some <$> stats -> Forall2 (fun a s => f a = Some s) l stats.
Proof.
  revert stats. induction l as [|a l IH]; intros [|s stats]; cbn; try discriminate.
  - constructor.
  - intros [= Ha Hl]. constructor; [exact Ha | apply IH; exact Hl].
Qed.

Lemma combine_names {A} (h : string -> response num -> A) (selected : list (capital_row shape))
    (stats : list (response num)) :
  map (fun sn => h (snd sn) (fst sn)) (combine stats (map name selected))
  = map (fun cs => h (name (fst cs)) (snd cs)) (combine selected stats).
Proof.
  revert stats. induction selected as [|c selected IH]; intros [|s stats]; cbn;
    try reflexivity.
  rewrite IH. reflexivity.
Qed.


End PipelineProperties.

(** * The properties on the concrete data *)

Example example_flat_table :
  flatten_tag_concat example_stats example_names
  = Ok {| columns := ["interval.from"; "interval.to";
                      "outputs.default.bands.NO2.stats.mean";
                      "outputs.default.bands.NO2.stats.sampleCount"; "name"];
          rows := [ [Val (JStr "2022-01-01T00:00:00Z"); Val (JStr "2022-01-03T00:00:00Z");
                     Val (JStr "NaN"); Val (JNum 0%Z); Val (JStr "Amsterdam")];
                    [Val (JStr "2022-01-03T00:00:00Z"); Val (JStr "2022-01-05T00:00:00Z");
                     Val (JStr "7"); Val (JNum 1%Z); Val (JStr "Amsterdam")];
                    [Val (JStr "2022-01-01T00:00:00Z"); Val (JStr "2022-01-03T00:00:00Z");
                     Val (JStr "7"); Val (JNum 1%Z); Val (JStr "Berlin")] ] |}.
Proof. vm_compute. reflexivity. Qed.

Example example_final_table :
  normalization example_parse example_month example_stats example_names
  = Ok {| columns := ["from"; "to"; "mean"; "sampleCount"; "name"; "month"];
          rows := [ [Val (JStr "2022-01-01T00:00:00Z"); Val (JStr "2022-01-03T00:00:00Z");
                     NaN; Val (JNum 0%Z); Val (JStr "Amsterdam"); Val (JNum 1%Z)];
                    [Val (JStr "2022-01-03T00:00:00Z"); Val (JStr "2022-01-05T00:00:00Z");
                     Val (JNum 7%Z); Val (JNum 1%Z); Val (JStr "Amsterdam"); Val (JNum 1%Z)];
                    [Val (JStr "2022-01-01T00:00:00Z"); Val (JStr "2022-01-03T00:00:00Z");
                     Val (JNum 7%Z); Val (JNum 1%Z); Val (JStr "Berlin"); Val (JNum 1%Z)] ] |}.
Proof. vm_compute. reflexivity. Qed.

(** C1 as stated fails on the empty list of responses: [pd.concat] refuses
    an empty list of frames, and no table is produced. *)
Lemma normalization_row_count_no_responses :
  ~ (exists T0 : DataFrame Z,
        flatten_tag_concat [] example_names = Ok T0
        /\ length (rows T0) = bucket_count (num:=Z) []).
Proof. intros (T0 & H & _). vm_compute in H. discriminate H. Qed.

(** C1, amended, on the example payload: three time buckets, three rows. *)
Lemma normalization_row_count_witness :
  (exists T0, flatten_tag_concat example_stats example_names = Ok T0
              /\ length (rows T0) = 3)
  /\ (forall T, normalization example_parse example_month example_stats example_names = Ok T ->
                length (rows T) = 3).
Proof.
  apply (normalization_row_count example_parse example_month example_stats example_names).
  discriminate.
Defined.

(** C7 on the example payload and its two names. *)
Lemma rows_tagged_with_unit_name_witness :
  match flatten_tag_concat example_stats example_names with
  | Ok T0 =>
      (exists blocks,
          rows T0 = concat blocks
          /\ Forall2 (unit_block T0) (combine example_stats example_names) blocks)
      /\ (forall T,
            normalization example_parse example_month example_stats example_names = Ok T ->
            exists j blocks,
              nth_error (columns T) j = Some "name"
              /\ rows T = concat blocks
              /\ Forall2 (final_unit_block j) (combine example_stats example_names) blocks)
  | Raise _ => example_stats = []
  end.
Proof.
  apply (rows_tagged_with_unit_name example_parse example_month
           example_stats example_names).
  reflexivity.
Defined.

(** The downloads finish in the order 2, 0, 1. *)
Lemma example_completed : [2; 0; 1] ≡ₚ seq 0 (length example_requests).
Proof. apply (Permutation_cons_app [0; 1] []). reflexivity. Qed.

Example example_download :
  download example_fetch example_requests [2; 0; 1] = Ok [Some 9; Some 8; Some 7].
Proof. reflexivity. Qed.

Example example_download_failing :
  download example_fetch_failing example_requests [2; 0; 1]
  = Raise (DownloadFailedException 1).
Proof. reflexivity. Qed.

(** C5 on the example requests. *)
Lemma download_results_in_request_order_witness :
  length [Some 9; Some 8; Some 7] = length example_requests
  /\ forall i rq, example_requests !! i = Some rq ->
       exists r, example_fetch rq = Some r
                 /\ [Some 9; Some 8; Some 7] !! i = Some (Some r).
Proof.
  apply (download_results_in_request_order example_fetch example_requests [2; 0; 1]).
  - exact example_completed.
  - reflexivity.
Defined.

(** C6 on the example requests, with a service that fails on one of them. *)
Lemma download_all_or_nothing_witness :
  ((exists rq, rq ∈ example_requests /\ example_fetch_failing rq = None) ->
     exists position, download example_fetch_failing example_requests [2; 0; 1]
                      = Raise (DownloadFailedException position))
  /\ ((forall rq, rq ∈ example_requests -> is_Some (example_fetch_failing rq)) ->
        exists results, download example_fetch_failing example_requests [2; 0; 1] = Ok results
                        /\ results = example_fetch_failing <$> example_requests
                        /\ Forall is_Some results).
Proof.
  apply (download_all_or_nothing example_fetch_failing example_requests [2; 0; 1]).
  exact example_completed.
Defined.

(** On rationals the comparator [a - b] is not positive exactly when
    [a <= b], so it orders any values consistently. *)
Lemma Q_not_after (a b : Q) : not_after Qminus Q_is_positive a b <-> (a <= b)%Q.
Proof.
  unfold not_after, compareFn, Q_is_positive, Qle. destruct a as [na da], b as [nb db].
  cbn. rewrite Z.ltb_ge. lia.
Qed.

Lemma Q_consistent (values : list Q) : consistent_on Qminus Q_is_positive values.
Proof.
  split.
  - intros a b _ _. rewrite !Q_not_after.
    destruct (Qlt_le_dec a b) as [H|H]; [left; apply Qlt_le_weak; exact H | right; exact H].
  - intros a b c _ _ _. rewrite !Q_not_after. apply Qle_trans.
Qed.

Example example_pixel :
  map Qred (evaluatePixel Qplus Qminus Qmult Qdiv inject_Z Q_is_positive 0%Q example_samples)
  = [500%Q; 700%Q; 400%Q; 7500%Q].
Proof. vm_compute. reflexivity. Qed.

Example example_pixel_no_valid_sample :
  evaluatePixel Qplus Qminus Qmult Qdiv inject_Z Q_is_positive 0%Q
    [ {| B08 := 0.90%Q; B04 := 0.80%Q; B03 := 0.85%Q; B02 := 0.90%Q; SCL := 9 |} ]
  = [inject_Z (-32768); inject_Z (-32768); inject_Z (-32768); inject_Z (-32768)].
Proof. reflexivity. Qed.

(** C9 on the example samples, over the rationals. *)
Lemma evaluatePixel_first_quartile_witness :
  (forall s, In s (List.filter validate example_samples)
             <-> In s example_samples /\ ~ In (SCL s) [0; 1; 3; 7; 8; 9; 10]%Z)
  /\ (List.filter validate example_samples = [] ->
      evaluatePixel Qplus Qminus Qmult Qdiv inject_Z Q_is_positive 0%Q example_samples
      = [inject_Z (-32768); inject_Z (-32768); inject_Z (-32768); inject_Z (-32768)])
  /\ (List.filter validate example_samples <> [] ->
      exists q08 q04 q03 q02,
        first_quartile_of Qminus Q_is_positive
          (map B08 (List.filter validate example_samples)) q08
        /\ first_quartile_of Qminus Q_is_positive
             (map B04 (List.filter validate example_samples)) q04
        /\ first_quartile_of Qminus Q_is_positive
             (map B03 (List.filter validate example_samples)) q03
        /\ first_quartile_of Qminus Q_is_positive
             (map B02 (List.filter validate example_samples)) q02
        /\ evaluatePixel Qplus Qminus Qmult Qdiv inject_Z Q_is_positive 0%Q example_samples
           = [Qmult q04 (inject_Z 10000); Qmult q03 (inject_Z 10000);
              Qmult q02 (inject_Z 10000);
              Qmult (Qdiv (Qminus q08 q04) (Qplus q08 q04)) (inject_Z 10000)]).
Proof.
  apply (evaluatePixel_first_quartile Qplus Qminus Qmult Qdiv inject_Z Q_is_positive 0%Q
           example_samples).
  repeat (apply List.Forall_cons; [apply Q_consistent|]). apply List.Forall_nil.
Defined.

Example example_CHANGE :
  values (CHANGE_diff Q_gt 0.7%Q example_NDVI) = [ [[0; -1; 0]]; [[-1; 1; 0]] ]%Z
  /\ CHANGE Q_gt 0.7%Q example_NDVI
     = {| year := [2018; 2019; 2020]%Z;
          values := [ [[None; None; None]];
                      [[Some 0; Some (-1); Some 0]];
                      [[Some (-1); Some 1; Some 0]] ]%Z |}.
Proof. split; reflexivity. Qed.

(** X2 on the near-infrared values of the valid example samples. *)
Lemma getFirstQuartileValue_rank_witness :
  exists q lower upper,
    getFirstQuartileValue Qminus Q_is_positive [0.40; 0.35; 0.30; 0.45; 0.50]%Q = Some q
    /\ In q [0.40; 0.35; 0.30; 0.45; 0.50]%Q
    /\ quartile_split Qminus Q_is_positive [0.40; 0.35; 0.30; 0.45; 0.50]%Q q lower upper
    /\ (length [0.40; 0.35; 0.30; 0.45; 0.50]%Q < 4
        -> Forall (not_after Qminus Q_is_positive q) upper /\ lower = []).
Proof.
  apply (getFirstQuartileValue_rank Qminus Q_is_positive [0.40; 0.35; 0.30; 0.45; 0.50]%Q).
  - discriminate.
  - apply Q_consistent.
Defined.

(** The values of each band of the valid example samples differ from each
    other, so the comparator tells them apart. *)
Lemma example_samples_antisymmetric :
  Forall (fun values => consistent_on Qminus Q_is_positive values
                        /\ antisymmetric_on Qminus Q_is_positive values)
    [map B08 (List.filter validate example_samples);
     map B04 (List.filter validate example_samples);
     map B03 (List.filter validate example_samples);
     map B02 (List.filter validate example_samples)].
Proof.
  repeat (apply List.Forall_cons; [split; [apply Q_consistent|]|]);
    [..|apply List.Forall_nil];
    intros a b Ha Hb; rewrite !Q_not_after; cbn in Ha, Hb;
    repeat (destruct Ha as [<-|Ha]; [|]); try contradiction;
    repeat (destruct Hb as [<-|Hb]; [|]); try contradiction;
    first [reflexivity | intros H1 H2; exfalso; revert H1 H2; unfold Qle; cbn; lia].
Qed.

(** X3 on the example samples, taken in the opposite order. *)
Lemma evaluatePixel_order_of_samples_witness :
  evaluatePixel Qplus Qminus Qmult Qdiv inject_Z Q_is_positive 0%Q example_samples
  = evaluatePixel Qplus Qminus Qmult Qdiv inject_Z Q_is_positive 0%Q
      (List.rev example_samples).
Proof.
  apply (evaluatePixel_order_of_samples Qplus Qminus Qmult Qdiv inject_Z Q_is_positive 0%Q
           example_samples (List.rev example_samples)).
  - apply Permutation_rev.
  - exact example_samples_antisymmetric.
Defined.

Lemma example_NDVI_well_shaped : well_shaped example_NDVI 1 3.
Proof.
  split; [|split; [reflexivity|]].
  - apply (bool_decide_unpack _). vm_compute. exact I.
  - cbn. repeat (apply List.Forall_cons; [split; [reflexivity|]|]);
      repeat (apply List.Forall_cons; [reflexivity|]); apply List.Forall_nil.
Qed.

Example example_forest_accounts :
  forest_pixels Q_gt 0.7%Q example_NDVI = [2; 1; 1]%Z
  /\ forest_loss Q_gt 0.7%Q example_NDVI = [0; 1; 1]%Z
  /\ forest_gain Q_gt 0.7%Q example_NDVI = [0; 0; 1]%Z.
Proof. repeat split; reflexivity. Qed.

(** X5 on the example dataset. *)
Lemma forest_accounts_witness :
  length (forest_pixels Q_gt 0.7%Q example_NDVI) = length (year example_NDVI)
  /\ length (forest_loss Q_gt 0.7%Q example_NDVI) = length (year example_NDVI)
  /\ (forall lost, forest_loss Q_gt 0.7%Q example_NDVI !! 0 = Some lost -> lost = 0%Z)
  /\ forall k before after,
       forest_pixels Q_gt 0.7%Q example_NDVI !! k = Some before ->
       forest_pixels Q_gt 0.7%Q example_NDVI !! S k = Some after ->
       exists lost gained,
         forest_loss Q_gt 0.7%Q example_NDVI !! S k = Some lost
         /\ forest_gain Q_gt 0.7%Q example_NDVI !! S k = Some gained
         /\ after = (before - lost + gained)%Z
         /\ (0 <= lost <= before)%Z /\ (0 <= gained)%Z.
Proof.
  apply (forest_accounts Q_gt 0.7%Q example_NDVI 1 3).
  exact example_NDVI_well_shaped.
Defined.

Example example_LOST_YEAR :
  LOST_YEAR Q_gt 0.7%Q example_NDVI = Some [[20; 19; 0]]%Z
  /\ LOST_YEAR_mask Q_gt 0.7%Q example_NDVI = Some [[true; true; false]].
Proof. split; reflexivity. Qed.

(** X7 on the example dataset. *)
Lemma LOST_YEAR_first_loss_witness :
  exists L,
    LOST_YEAR Q_gt 0.7%Q example_NDVI = Some L
    /\ length L = 1 /\ Forall (fun row => length row = 3) L
    /\ forall i j, i < 1 -> j < 3 ->
         (L !! i ≫= fun row => row !! j)
         = Some (match first_loss
                         (along_axis0 (values (FOREST Q_gt 0.7%Q example_NDVI)) i j) with
                 | Some t => (nth t (year example_NDVI) 0 mod 100)%Z
                 | None => 0%Z
                 end).
Proof.
  apply (LOST_YEAR_first_loss Q_gt 0.7%Q example_NDVI 1 3).
  - exact example_NDVI_well_shaped.
  - discriminate.
  - cbn. repeat (apply List.Forall_cons; [discriminate|]). apply List.Forall_nil.
Defined.

(** X8 on the example dataset. *)
Lemma LOST_YEAR_mask_marks_losses_witness :
  exists M,
    LOST_YEAR_mask Q_gt 0.7%Q example_NDVI = Some M
    /\ forall i j, i < 1 -> j < 3 ->
         exists marked,
           (M !! i ≫= fun row => row !! j) = Some marked
           /\ (marked = true
               <-> exists t,
                     along_axis0 (values (FOREST Q_gt 0.7%Q example_NDVI)) i j !! t
                     = Some true
                     /\ along_axis0 (values (FOREST Q_gt 0.7%Q example_NDVI)) i j !! S t
                        = Some false).
Proof.
  apply (LOST_YEAR_mask_marks_losses Q_gt 0.7%Q example_NDVI 1 3).
  - exact example_NDVI_well_shaped.
  - discriminate.
  - cbn. repeat (apply List.Forall_cons; [reflexivity|]). apply List.Forall_nil.
Defined.

(** X9 on two responses without time buckets. *)
Lemma normalization_without_buckets_witness :
  normalization example_parse example_month [ {| data := [] |}; {| data := [] |} ]
    example_names
  = Raise (KeyError "from").
Proof.
  apply (normalization_without_buckets example_parse example_month
           [ {| data := [] |}; {| data := [] |} ] example_names).
  - discriminate.
  - repeat (apply List.Forall_cons; [reflexivity|]). apply List.Forall_nil.
Defined.

(** X10 on the example payload. *)
Lemma month_of_interval_start_witness :
  count_occ string_dec ["from"; "to"; "mean"; "sampleCount"; "name"; "month"] "from" = 1
  /\ In "month" ["from"; "to"; "mean"; "sampleCount"; "name"; "month"]
  /\ Forall (fun row =>
               example_month
                 (cell_at ["from"; "to"; "mean"; "sampleCount"; "name"; "month"] row "from")
               = Some (cell_at ["from"; "to"; "mean"; "sampleCount"; "name"; "month"]
                               row "month"))
       [ [Val (JStr "2022-01-01T00:00:00Z"); Val (JStr "2022-01-03T00:00:00Z");
          NaN; Val (JNum 0%Z); Val (JStr "Amsterdam"); Val (JNum 1%Z)];
         [Val (JStr "2022-01-03T00:00:00Z"); Val (JStr "2022-01-05T00:00:00Z");
          Val (JNum 7%Z); Val (JNum 1%Z); Val (JStr "Amsterdam"); Val (JNum 1%Z)];
         [Val (JStr "2022-01-01T00:00:00Z"); Val (JStr "2022-01-03T00:00:00Z");
          Val (JNum 7%Z); Val (JNum 1%Z); Val (JStr "Berlin"); Val (JNum 1%Z)] ].
Proof.
  apply (month_of_interval_start example_parse example_month example_stats example_names
           {| columns := ["from"; "to"; "mean"; "sampleCount"; "name"; "month"];
              rows := [ [Val (JStr "2022-01-01T00:00:00Z"); Val (JStr "2022-01-03T00:00:00Z");
                         NaN; Val (JNum 0%Z); Val (JStr "Amsterdam"); Val (JNum 1%Z)];
                        [Val (JStr "2022-01-03T00:00:00Z"); Val (JStr "2022-01-05T00:00:00Z");
                         Val (JNum 7%Z); Val (JNum 1%Z); Val (JStr "Amsterdam");
                         Val (JNum 1%Z)];
                        [Val (JStr "2022-01-01T00:00:00Z"); Val (JStr "2022-01-03T00:00:00Z");
                         Val (JNum 7%Z); Val (JNum 1%Z); Val (JStr "Berlin");
                         Val (JNum 1%Z)] ] |}).
  vm_compute. reflexivity.
Defined.

Example example_file_of_another_source :
  add_time_dim "./data/Hansen_GFC-2022-v1.10_lossyear_60N_010E.tif" [[0%Z]] = None.
Proof. vm_compute. reflexivity. Qed.

(** X11 on the year 2018. *)
Lemma year_read_back_from_file_name_witness :
  add_time_dim "./data/2018.tif" [[0%Z]]
  = Some {| year := [2018%Z]; values := [[[0%Z]]] |}
  /\ (exists s, str_of_int 2018 = Some s
                /\ forall dir, add_time_dim (dir +:+ "/" +:+ s +:+ ".tif") [[0%Z]]
                               = Some {| year := [2018%Z]; values := [[[0%Z]]] |})
  /\ (forall year', year_file year' = Some "./data/2018.tif" -> year' = 2018%Z).
Proof.
  apply (year_read_back_from_file_name 2018 "./data/2018.tif" [[0%Z]]).
  vm_compute. reflexivity.
Defined.


(** X6 on the example dataset, from 2018 to 2020. *)
Lemma forest_decline_within_losses_witness :
  (2 - 1 <= fold_right Z.add 0 (take 3 (forest_loss Q_gt 0.7%Q example_NDVI)))%Z.
Proof.
  apply (forest_decline_within_losses Q_gt 0.7%Q example_NDVI 1 3
           example_NDVI_well_shaped 2 2%Z 1%Z); reflexivity.
Defined.
